(** * orkestra-shared: the node-executor wire codec

    A shallow embedding of [shared/interface.go]: the data model ([Node],
    [ExecutionContext], [Retries]), the conversion helpers between the data
    model and the protobuf envelope ([toProtoNode], [fromProtoNode],
    [toProtoExecutionContext], [fromProtoExecutionContext], [toProtoValue],
    [fromProtoValue]), the two gRPC adapters and the go-plugin wrapper.

    The helpers call [encoding/json].  That package is not part of the
    repository; the first modules below model the part of it the helpers
    rely on: the text of a JSON document, the values an [interface{}] can
    hold, and [json.Marshal] / [json.Unmarshal] at the three target types
    the helpers use. *)

From Stdlib Require Import ZArith NArith List String Ascii Bool Lia.
From Stdlib Require Import Decimal DecimalString DecimalN.
Import ListNotations.

Set Warnings "-register-all".
Local Open Scope string_scope.

(** ** Errors and results *)

(** A Go [error] value.  The first three are the error types of
    [encoding/json]; [ErrorString] is what [fmt.Errorf] without [%w] builds,
    [WrapError] what [fmt.Errorf("<prefix>: %w", err)] builds, and
    [StatusError] is the gRPC status under which a failed call reaches the
    calling side. *)
Inductive error : Type :=
| SyntaxError (msg : string)
| UnmarshalTypeError (val typ field : string)
| UnsupportedTypeError (typ : string)
| ErrorString (msg : string)
| WrapError (prefix : string) (cause : error)
| StatusError (code desc : string).

(** The [Error()] method. *)
Fixpoint Error (e : error) : string :=
  match e with
  | SyntaxError msg => msg
  | UnmarshalTypeError v t "" =>
      "json: cannot unmarshal " ++ v ++ " into Go value of type " ++ t
  | UnmarshalTypeError v t f =>
      "json: cannot unmarshal " ++ v ++ " into Go struct field " ++ f
        ++ " of type " ++ t
  | UnsupportedTypeError t => "json: unsupported type: " ++ t
  | ErrorString msg => msg
  | WrapError p c => p ++ ": " ++ Error c
  | StatusError c d => "rpc error: code = " ++ c ++ " desc = " ++ d
  end.

(** A Go result pair [(T, error)]: either the value with a nil error, or the
    error (the helpers always return the zero value next to an error). *)
Inductive result (A : Type) : Type :=
| Ok (a : A)
| Err (e : error).
Arguments Ok {A} a.
Arguments Err {A} e.

Definition bind {A B} (r : result A) (k : A -> result B) : result B :=
  match r with
  | Ok a => k a
  | Err e => Err e
  end.

Notation "x <- r ;; k" := (bind r (fun x => k))
  (at level 61, r at next level, right associativity).

Definition is_ok {A} (r : result A) : bool :=
  match r with Ok _ => true | Err _ => false end.

(** A Go slice: [None] is the nil slice, [Some l] a non-nil slice holding
    [l] (so [Some []] is the empty, non-nil slice). *)
Definition slice (A : Type) : Type := option (list A).

(** [append(s, x)]. *)
Definition append_slice {A} (s : slice A) (x : A) : slice A :=
  match s with
  | None => Some [x]
  | Some l => Some (l ++ [x])%list
  end.

(** [[]byte], of which the helpers look at the length and the contents
    only. *)
Definition bytes : Type := string.

(** ** JSON text *)

Module Json.

Definition dquote : ascii := "034"%char.
Definition backslash : ascii := "092"%char.

(** A JSON document.  Number literals are integers: fractions and exponents
    are outside the modelled grammar, and the parser below does not read
    them.  A string is its bytes; bytes above 127 are written and read as
    they are, which is what the library does on valid UTF-8 (it writes
    U+2028 and U+2029 as escapes and reads them back to the same bytes). *)
Inductive json : Type :=
| JNull
| JBool (b : bool)
| JNum (z : Z)
| JStr (s : string)
| JArr (l : list json)
| JObj (m : list (string * json)).

(** *** Printing, as [json.Marshal] lays a document out (compact, HTML-safe
    string escapes). *)

Definition hex_digit (n : N) : ascii :=
  if (n <? 10)%N then ascii_of_N (48 + n) else ascii_of_N (87 + n).

Definition escape_char (c : ascii) : string :=
  let n := N_of_ascii c in
  if (c =? dquote)%char then String backslash (String dquote "")
  else if (c =? backslash)%char then String backslash (String backslash "")
  else if (n =? 8)%N then String backslash "b"
  else if (n =? 12)%N then String backslash "f"
  else if (n =? 10)%N then String backslash "n"
  else if (n =? 13)%N then String backslash "r"
  else if (n =? 9)%N then String backslash "t"
  else if (n <? 32)%N || (c =? "<")%char || (c =? ">")%char || (c =? "&")%char then
    String backslash
      (String "u" (String "0" (String "0"
         (String (hex_digit (n / 16)) (String (hex_digit (n mod 16)) "")))))
  else String c "".

Fixpoint escape (s : string) : string :=
  match s with
  | "" => ""
  | String c r => escape_char c ++ escape r
  end.

Definition print_string (s : string) : string :=
  String dquote (escape s ++ String dquote "").

Definition print_N (n : N) : string := NilEmpty.string_of_uint (N.to_uint n).

Definition print_Z (z : Z) : string :=
  match z with
  | Zneg p => String "-" (print_N (Npos p))
  | _ => print_N (Z.to_N z)
  end.

(** Elements and members are separated by a comma. *)
Fixpoint join (l : list string) : string :=
  match l with
  | [] => ""
  | [x] => x
  | x :: l' => x ++ "," ++ join l'
  end.

Fixpoint print (j : json) : string :=
  match j with
  | JNull => "null"
  | JBool true => "true"
  | JBool false => "false"
  | JNum z => print_Z z
  | JStr s => print_string s
  | JArr l => "[" ++ join (map print l) ++ "]"
  | JObj m =>
      "{" ++ join (map (fun kv => print_string (fst kv) ++ ":" ++ print (snd kv)) m)
          ++ "}"
  end.

(** *** Parsing, as [json.Unmarshal] reads a document. *)

Definition is_ws (c : ascii) : bool :=
  ((c =? " ") || (c =? "009") || (c =? "010") || (c =? "013"))%char.

Fixpoint skip_ws (s : string) : string :=
  match s with
  | String c r => if is_ws c then skip_ws r else s
  | "" => ""
  end.

Fixpoint strip_prefix (p s : string) : option string :=
  match p, s with
  | "", _ => Some s
  | String a p', String b s' => if (a =? b)%char then strip_prefix p' s' else None
  | String _ _, "" => None
  end.

Definition hex_value (c : ascii) : option N :=
  let n := N_of_ascii c in
  if ((48 <=? n) && (n <=? 57))%N then Some (n - 48)%N
  else if ((97 <=? n) && (n <=? 102))%N then Some (n - 87)%N
  else if ((65 <=? n) && (n <=? 70))%N then Some (n - 55)%N
  else None.

Definition hex4 (a b c d : ascii) : option N :=
  match hex_value a, hex_value b, hex_value c, hex_value d with
  | Some x, Some y, Some z, Some w => Some (((x * 16 + y) * 16 + z) * 16 + w)%N
  | _, _, _, _ => None
  end.

(** The UTF-8 bytes of a code point. *)
Definition utf8 (cp : N) : string :=
  (if cp <? 128 then String (ascii_of_N cp) ""
   else if cp <? 2048 then
     String (ascii_of_N (192 + cp / 64)) (String (ascii_of_N (128 + cp mod 64)) "")
   else if cp <? 65536 then
     String (ascii_of_N (224 + cp / 4096))
       (String (ascii_of_N (128 + (cp / 64) mod 64))
          (String (ascii_of_N (128 + cp mod 64)) ""))
   else
     String (ascii_of_N (240 + cp / 262144))
       (String (ascii_of_N (128 + (cp / 4096) mod 64))
          (String (ascii_of_N (128 + (cp / 64) mod 64))
             (String (ascii_of_N (128 + cp mod 64)) ""))))%N.

Definition is_high_surrogate (cp : N) : bool := ((55296 <=? cp) && (cp <? 56320))%N.
Definition is_low_surrogate (cp : N) : bool := ((56320 <=? cp) && (cp <? 57344))%N.

(** A lone surrogate decodes to U+FFFD. *)
Definition lone (cp : N) : N :=
  if is_high_surrogate cp || is_low_surrogate cp then 65533%N else cp.

Definition unescape_simple (c : ascii) : option ascii :=
  if (c =? dquote)%char then Some dquote
  else if (c =? backslash)%char then Some backslash
  else if (c =? "/")%char then Some "/"%char
  else if (c =? "b")%char then Some "008"%char
  else if (c =? "f")%char then Some "012"%char
  else if (c =? "n")%char then Some "010"%char
  else if (c =? "r")%char then Some "013"%char
  else if (c =? "t")%char then Some "009"%char
  else None.

Definition prepend (p : string) (r : option (string * string))
  : option (string * string) :=
  match r with
  | Some (s, rest) => Some (p ++ s, rest)
  | None => None
  end.

(** The characters of a string literal, after its opening quote, up to and
    including its closing quote. *)
Fixpoint parse_chars (s : string) : option (string * string) :=
  match s with
  | "" => None
  | String c r =>
      if (c =? dquote)%char then Some ("", r)
      else if (c =? backslash)%char then
        match r with
        | String "u" (String h1 (String h2 (String h3 (String h4 r2)))) =>
            match hex4 h1 h2 h3 h4 with
            | None => None
            | Some cp =>
                if is_high_surrogate cp then
                  match r2 with
                  | String "092" (String "u"
                      (String l1 (String l2 (String l3 (String l4 r3))))) =>
                      match hex4 l1 l2 l3 l4 with
                      | Some lo =>
                          if is_low_surrogate lo then
                            prepend
                              (utf8 (65536 + (cp - 55296) * 1024 + (lo - 56320))%N)
                              (parse_chars r3)
                          else prepend (utf8 65533%N) (parse_chars r2)
                      | None => prepend (utf8 65533%N) (parse_chars r2)
                      end
                  | _ => prepend (utf8 65533%N) (parse_chars r2)
                  end
                else prepend (utf8 (lone cp)) (parse_chars r2)
            end
        | String e r1 =>
            match unescape_simple e with
            | Some ch => prepend (String ch "") (parse_chars r1)
            | None => None
            end
        | "" => None
        end
      else if (N_of_ascii c <? 32)%N then None
      else prepend (String c "") (parse_chars r)
  end.

Definition digit_of (c : ascii) : option (uint -> uint) :=
  match N_of_ascii c with
  | 48%N => Some D0 | 49%N => Some D1 | 50%N => Some D2 | 51%N => Some D3
  | 52%N => Some D4 | 53%N => Some D5 | 54%N => Some D6 | 55%N => Some D7
  | 56%N => Some D8 | 57%N => Some D9
  | _ => None
  end.

(** The longest run of decimal digits at the head of [s]. *)
Fixpoint span_digits (s : string) : uint * string :=
  match s with
  | String c r =>
      match digit_of c with
      | Some d => let (ds, rest) := span_digits r in (d ds, rest)
      | None => (Nil, s)
      end
  | "" => (Nil, "")
  end.

(** An unsigned integer literal: at least one digit, no leading zero. *)
Definition parse_N (s : string) : option (N * string) :=
  let (ds, rest) := span_digits s in
  match ds with
  | Nil => None
  | _ => if uint_eq_dec (unorm ds) ds then Some (N.of_uint ds, rest) else None
  end.

Definition parse_Z (s : string) : option (Z * string) :=
  match s with
  | String "-" r =>
      match parse_N r with
      | Some (n, rest) => Some (Z.opp (Z.of_N n), rest)
      | None => None
      end
  | _ =>
      match parse_N s with
      | Some (n, rest) => Some (Z.of_N n, rest)
      | None => None
      end
  end.

Definition tagged (j : json) (r : option string) : option (json * string) :=
  match r with
  | Some rest => Some (j, rest)
  | None => None
  end.

Fixpoint parse_value (fuel : nat) (s : string) : option (json * string) :=
  match fuel with
  | O => None
  | S f =>
      match skip_ws s with
      | "" => None
      | String c r =>
          if (c =? "n")%char then tagged JNull (strip_prefix "ull" r)
          else if (c =? "t")%char then tagged (JBool true) (strip_prefix "rue" r)
          else if (c =? "f")%char then tagged (JBool false) (strip_prefix "alse" r)
          else if (c =? dquote)%char then
            match parse_chars r with
            | Some (str, rest) => Some (JStr str, rest)
            | None => None
            end
          else if (c =? "[")%char then
            match skip_ws r with
            | String "]" rest => Some (JArr [], rest)
            | _ =>
                match parse_elements f r with
                | Some (l, rest) => Some (JArr l, rest)
                | None => None
                end
            end
          else if (c =? "{")%char then
            match skip_ws r with
            | String "}" rest => Some (JObj [], rest)
            | _ =>
                match parse_members f r with
                | Some (m, rest) => Some (JObj m, rest)
                | None => None
                end
            end
          else
            match parse_Z (String c r) with
            | Some (z, rest) => Some (JNum z, rest)
            | None => None
            end
      end
  end
with parse_elements (fuel : nat) (s : string) : option (list json * string) :=
  match fuel with
  | O => None
  | S f =>
      match parse_value f s with
      | None => None
      | Some (x, r) =>
          match skip_ws r with
          | String "," r' =>
              match parse_elements f r' with
              | Some (l, rest) => Some (x :: l, rest)
              | None => None
              end
          | String "]" rest => Some ([x], rest)
          | _ => None
          end
      end
  end
with parse_members (fuel : nat) (s : string)
  : option (list (string * json) * string) :=
  match fuel with
  | O => None
  | S f =>
      match skip_ws s with
      | String c r =>
          if (c =? dquote)%char then
            match parse_chars r with
            | None => None
            | Some (k, r1) =>
                match skip_ws r1 with
                | String ":" r2 =>
                    match parse_value f r2 with
                    | None => None
                    | Some (x, r3) =>
                        match skip_ws r3 with
                        | String "," r4 =>
                            match parse_members f r4 with
                            | Some (m, rest) => Some ((k, x) :: m, rest)
                            | None => None
                            end
                        | String "}" rest => Some ([(k, x)], rest)
                        | _ => None
                        end
                    end
                | _ => None
                end
            end
          else None
      | "" => None
      end
  end.

(** A whole document: one value, white space around it, nothing else. *)
Definition parse (b : string) : option json :=
  match parse_value (S (String.length b)) b with
  | Some (j, rest) =>
      match skip_ws rest with
      | "" => Some j
      | _ => None
      end
  | None => None
  end.

(** *** Notions used to state that printing and parsing agree *)

(** No decimal digit at the head: what may follow a number literal. *)
Definition no_digit_head (s : string) : bool :=
  match s with
  | String c _ => match digit_of c with Some _ => false | None => true end
  | "" => true
  end.

(** A number literal begins with a digit or a minus sign. *)
Definition num_head (s : string) : bool :=
  match s with
  | String c _ =>
      match digit_of c with Some _ => true | None => (c =? "-")%char end
  | "" => false
  end.

(** The first character of a printed value. *)
Definition value_head (c : ascii) : bool :=
  match digit_of c with
  | Some _ => true
  | None =>
      ((c =? "-") || (c =? dquote) || (c =? "[") || (c =? "{")
       || (c =? "n") || (c =? "t") || (c =? "f"))%char
  end.

(** Induction over documents, through the nested lists. *)
Section JsonInd.
Variable P : json -> Prop.
Hypothesis HNull : P JNull.
Hypothesis HBool : forall b, P (JBool b).
Hypothesis HNum : forall z, P (JNum z).
Hypothesis HStr : forall s, P (JStr s).
Hypothesis HArr : forall l, Forall P l -> P (JArr l).
Hypothesis HObj : forall m, Forall (fun kv => P (snd kv)) m -> P (JObj m).

Fixpoint json_ind' (j : json) : P j :=
  match j with
  | JNull => HNull
  | JBool b => HBool b
  | JNum z => HNum z
  | JStr s => HStr s
  | JArr l =>
      HArr l ((fix go (l : list json) : Forall P l :=
                 match l with
                 | [] => Forall_nil _
                 | x :: l' => Forall_cons x (json_ind' x) (go l')
                 end) l)
  | JObj m =>
      HObj m ((fix go (m : list (string * json))
                 : Forall (fun kv => P (snd kv)) m :=
                 match m with
                 | [] => Forall_nil _
                 | kv :: m' => Forall_cons kv (json_ind' (snd kv)) (go m')
                 end) m)
  end.
End JsonInd.

(** The number of parser calls a document needs. *)
Fixpoint cost (j : json) : nat :=
  match j with
  | JArr l => S (list_sum (map (fun x => S (cost x)) l))
  | JObj m => S (list_sum (map (fun kv => S (cost (snd kv))) m))
  | _ => 1
  end.

Definition reads_back (j : json) : Prop :=
  forall fuel rest,
    cost j <= fuel -> no_digit_head rest = true ->
    parse_value fuel (print j ++ rest) = Some (j, rest).

Definition print_member (kv : string * json) : string :=
  print_string (fst kv) ++ ":" ++ print (snd kv).

End Json.

(** ** Go values and [encoding/json] *)

Section MapM.
Context {A B : Type}.
Variable f : A -> result B.

(** Convert the elements in order; the first error ends the conversion. *)
Fixpoint mapM (l : list A) : result (list B) :=
  match l with
  | [] => Ok []
  | x :: l' => y <- f x ;; ys <- mapM l' ;; Ok (y :: ys)
  end.
End MapM.

(** What an [interface{}] can hold, as far as the codec can tell values
    apart: the nil interface, the types [json.Unmarshal] itself produces
    ([bool], [float64], [string], [[]interface{}], [map[string]interface{}]),
    a Go [int] (any other numeric type behaves alike), and a channel, which
    stands for the types [json.Marshal] rejects.

    A [float64] is represented by the integer it holds; a Go map by its
    association list in increasing key order ([None] is the nil map).
    Strings hold valid UTF-8. *)
Inductive value : Type :=
| VNil
| VBool (b : bool)
| VInt (z : Z)
| VFloat64 (z : Z)
| VString (s : string)
| VSlice (l : slice value)
| VMap (m : option (list (string * value)))
| VChan.

(** [map[string]interface{}]. *)
Definition gomap : Type := option (list (string * value)).

Module GoJson.
Import Json.

(** *** Maps as key-sorted association lists *)

Section Assoc.
Context {V : Type}.

(** [m[k] = v]. *)
Fixpoint map_insert (k : string) (v : V) (m : list (string * V))
  : list (string * V) :=
  match m with
  | [] => [(k, v)]
  | (k', v') :: m' =>
      match String.compare k k' with
      | Lt => (k, v) :: (k', v') :: m'
      | Eq => (k, v) :: m'
      | Gt => (k', v') :: map_insert k v m'
      end
  end.

(** The members of an object, stored one after the other: a repeated key
    keeps its last value. *)
Definition map_of_list (kvs : list (string * V)) : list (string * V) :=
  fold_left (fun m kv => map_insert (fst kv) (snd kv) m) kvs [].

(** Every key is smaller than every key after it. *)
Fixpoint sorted_keys (m : list (string * V)) : bool :=
  match m with
  | [] => true
  | (k, _) :: m' =>
      forallb (fun kv => String.ltb k (fst kv)) m' && sorted_keys m'
  end.
End Assoc.

(** *** [json.Marshal] *)

Fixpoint to_json (v : value) : result json :=
  match v with
  | VNil => Ok JNull
  | VBool b => Ok (JBool b)
  | VInt z => Ok (JNum z)
  | VFloat64 z => Ok (JNum z)
  | VString s => Ok (JStr s)
  | VSlice None => Ok JNull
  | VSlice (Some l) => js <- mapM to_json l ;; Ok (JArr js)
  | VMap None => Ok JNull
  | VMap (Some m) =>
      ms <- mapM (fun kv => j <- to_json (snd kv) ;; Ok (fst kv, j)) m ;;
      Ok (JObj ms)
  | VChan => Err (UnsupportedTypeError "chan int")
  end.

(** [json.Marshal(v)] for [v] of type [interface{}]. *)
Definition Marshal (v : value) : result bytes :=
  j <- to_json v ;; Ok (print j).

(** [json.Marshal(m)] for [m] of type [map[string]interface{}]. *)
Definition MarshalMap (m : gomap) : result bytes := Marshal (VMap m).

(** *** [json.Unmarshal] *)

(** The nearest [float64] to an integer (ties to even), when finite. *)
Definition float64_of_Z (z : Z) : option Z :=
  let a := Z.abs z in
  if (a <=? 2 ^ 53)%Z then Some z
  else
    let e := (Z.log2 a - 52)%Z in
    let q := (a / 2 ^ e)%Z in
    let r := (a mod 2 ^ e)%Z in
    let h := (2 ^ (e - 1))%Z in
    let q' := if (r <? h)%Z then q
              else if (h <? r)%Z then (q + 1)%Z
              else if Z.even q then q else (q + 1)%Z in
    let m := (q' * 2 ^ e)%Z in
    if (m <? 2 ^ 1024)%Z then Some (Z.sgn z * m)%Z else None.

(** Decoding into an [interface{}]. *)
Fixpoint of_json (j : json) : result value :=
  match j with
  | JNull => Ok VNil
  | JBool b => Ok (VBool b)
  | JNum z =>
      match float64_of_Z z with
      | Some f => Ok (VFloat64 f)
      | None => Err (UnmarshalTypeError ("number " ++ print_Z z) "float64" "")
      end
  | JStr s => Ok (VString s)
  | JArr l => vs <- mapM of_json l ;; Ok (VSlice (Some vs))
  | JObj m =>
      kvs <- mapM (fun kv => v <- of_json (snd kv) ;; Ok (fst kv, v)) m ;;
      Ok (VMap (Some (map_of_list kvs)))
  end.

(** The text of a syntax error.  The library's text for a malformed
    document names the offending character; only the text for the empty
    document is reproduced exactly. *)
Definition syntax_msg (b : bytes) : string :=
  match skip_ws b with
  | "" => "unexpected end of JSON input"
  | _ => "invalid character in JSON input"
  end.

(** The JSON kind named in an [UnmarshalTypeError]. *)
Definition kind (j : json) : string :=
  match j with
  | JNull => "null"
  | JBool _ => "bool"
  | JNum _ => "number"
  | JStr _ => "string"
  | JArr _ => "array"
  | JObj _ => "object"
  end.

(** [var v interface{}; json.Unmarshal(b, &v)]. *)
Definition Unmarshal (b : bytes) : result value :=
  match parse b with
  | None => Err (SyntaxError (syntax_msg b))
  | Some j => of_json j
  end.

(** [var m map[string]interface{}; json.Unmarshal(b, &m)]: [null] leaves
    the map nil, an object fills a fresh map, anything else is a type
    error. *)
Definition UnmarshalMap (b : bytes) : result gomap :=
  match parse b with
  | None => Err (SyntaxError (syntax_msg b))
  | Some JNull => Ok None
  | Some (JObj m) =>
      kvs <- mapM (fun kv => v <- of_json (snd kv) ;; Ok (fst kv, v)) m ;;
      Ok (Some (map_of_list kvs))
  | Some j => Err (UnmarshalTypeError (kind j) "map[string]interface {}" "")
  end.

End GoJson.

(** ** The data model ([shared/interface.go], lines 28-49) *)

Record Retries : Type := mkRetries {
  Count : Z;
  Delay : string
}.

Record ExecutionContext : Type := mkExecutionContext {
  TriggerData : gomap;
  NodeOutputs : gomap;
  Secrets : option (list (string * string));
  CurrentItem : value;
  FailureData : gomap
}.

(** A [*Node] is [None] (nil) or [Some n].  The type is inductive, so a
    value of it is a finite tree: no node is its own descendant. *)
Inductive Node : Type := mkNode {
  ID : string;
  Uses : string;
  With : gomap;
  Needs : slice string;
  Do : slice (option Node);
  Retries' : option Retries;
  OnFailure : slice (option Node)
}.

(** Modelled from the spec: the generated package [proto] is not under src/.
    The message types have the fields the code reads and writes, typed as
    the spec's envelope wire shape gives them: [{id: string, uses: string,
    with: bytes, needs: [string], do: [Envelope], retries: bytes,
    on_failure: [Envelope]}] and [{trigger_data: bytes, node_outputs: bytes,
    secrets: map<string,string>, current_item: bytes, failure_data: bytes}]. *)
Module proto.

Inductive Node : Type := mkNode {
  Id : string;
  Uses : string;
  With : bytes;
  Needs : slice string;
  Do : slice (option Node);
  Retries : bytes;
  OnFailure : slice (option Node)
}.

Record ExecutionContext : Type := mkExecutionContext {
  TriggerData : bytes;
  NodeOutputs : bytes;
  Secrets : option (list (string * string));
  CurrentItem : bytes;
  FailureData : bytes
}.

(** The request always carries a context: [toProtoExecuteRequest] sets
    it, and [fromProtoExecutionContext] reads through the pointer. *)
Record ExecuteRequest : Type := mkExecuteRequest {
  Node' : option Node;
  Context : ExecutionContext
}.

Record ExecuteResponse : Type := mkExecuteResponse {
  Result : bytes
}.

Record GetCapabilitiesResponse : Type := mkGetCapabilitiesResponse {
  Uses' : slice string
}.

Inductive Empty : Type := mkEmpty.

(** The generated client stub and server interfaces of the service. *)
Record NodeExecutorClient : Type := mkNodeExecutorClient {
  ClientExecute : ExecuteRequest -> result ExecuteResponse;
  ClientGetCapabilities : Empty -> result GetCapabilitiesResponse
}.

Record NodeExecutorServer : Type := mkNodeExecutorServer {
  ServerExecute : ExecuteRequest -> result ExecuteResponse;
  ServerGetCapabilities : Empty -> result GetCapabilitiesResponse
}.

End proto.

(** What the adapters use of [google.golang.org/grpc], which is not part of
    the repository: a server is the services registered on it, a client
    connection reaches one server, and a unary call runs the registered
    handler; the handler's error comes back as a status whose description
    is the error's text (an error that already is a status is passed on).
    Messages cross unchanged. *)
Module grpc.

Record Server : Type := mkServer {
  services : list proto.NodeExecutorServer
}.

Record ClientConn : Type := mkClientConn {
  peer : Server
}.

Definition to_status (e : error) : error :=
  match e with
  | StatusError _ _ => e
  | _ => StatusError "Unknown" (Error e)
  end.

Definition invoke {Req Resp : Type} (handler : Req -> result Resp) (req : Req)
  : result Resp :=
  match handler req with
  | Ok resp => Ok resp
  | Err e => Err (to_status e)
  end.

Definition unimplemented {Resp : Type} : result Resp :=
  Err (StatusError "Unimplemented" "unknown service proto.NodeExecutor").

End grpc.

(** The two generated entry points that tie the service to a transport. *)
Module proto_grpc.

Definition RegisterNodeExecutorServer (s : grpc.Server)
  (srv : proto.NodeExecutorServer) : grpc.Server :=
  grpc.mkServer (srv :: grpc.services s).

Definition NewNodeExecutorClient (c : grpc.ClientConn)
  : proto.NodeExecutorClient :=
  match grpc.services (grpc.peer c) with
  | srv :: _ =>
      proto.mkNodeExecutorClient
        (grpc.invoke (proto.ServerExecute srv))
        (grpc.invoke (proto.ServerGetCapabilities srv))
  | [] =>
      proto.mkNodeExecutorClient
        (fun _ => grpc.unimplemented) (fun _ => grpc.unimplemented)
  end.

End proto_grpc.

(** The handles of [github.com/hashicorp/go-plugin] and [net/rpc] the
    wrapper receives and never looks at. *)
Module plugin.

Record HandshakeConfig : Type := mkHandshakeConfig {
  ProtocolVersion : N;
  MagicCookieKey : string;
  MagicCookieValue : string
}.

Inductive MuxBroker : Type := mkMuxBroker.
Inductive GRPCBroker : Type := mkGRPCBroker.
Inductive rpcClient : Type := mkRpcClient.

End plugin.

(** *** [json] at the [*Retries] type *)

Module RetriesJson.
Import Json GoJson.

(** [json.Marshal(r)] for [r] of type [*Retries]: [null] for the nil
    pointer, else the object with the two tagged fields. *)
Definition MarshalRetries (r : option Retries) : result bytes :=
  match r with
  | None => Ok (print JNull)
  | Some r => Ok (print (JObj [("count", JNum (Count r)); ("delay", JStr (Delay r))]))
  end.

Definition lower_char (c : ascii) : ascii :=
  let n := N_of_ascii c in
  if ((65 <=? n) && (n <=? 90))%N then ascii_of_N (n + 32) else c.

Fixpoint lower (s : string) : string :=
  match s with
  | "" => ""
  | String c r => String (lower_char c) (lower r)
  end.

Definition first_error (e : option error) (e' : error) : option error :=
  match e with
  | Some _ => e
  | None => Some e'
  end.

Definition fits_int (z : Z) : bool :=
  ((- 2 ^ 63 <=? z) && (z <? 2 ^ 63))%Z.

(** One member of the object: a key that names a field (letter case
    aside) sets it, [null] leaves it alone, a value of the wrong kind is
    recorded as the error to report, any other key is skipped. *)
Definition set_field (st : Retries * option error) (kv : string * json)
  : Retries * option error :=
  let (r, e) := st in
  let k := lower (fst kv) in
  if (k =? "count")%string then
    match snd kv with
    | JNull => st
    | JNum z =>
        if fits_int z then (mkRetries z (Delay r), e)
        else (r, first_error e
                (UnmarshalTypeError ("number " ++ print_Z z) "int" "Retries.count"))
    | j => (r, first_error e (UnmarshalTypeError (kind j) "int" "Retries.count"))
    end
  else if (k =? "delay")%string then
    match snd kv with
    | JNull => st
    | JStr s => (mkRetries (Count r) s, e)
    | j => (r, first_error e (UnmarshalTypeError (kind j) "string" "Retries.delay"))
    end
  else st.

(** [var r *Retries; json.Unmarshal(b, &r)]. *)
Definition UnmarshalRetries (b : bytes) : result (option Retries) :=
  match parse b with
  | None => Err (SyntaxError (syntax_msg b))
  | Some JNull => Ok None
  | Some (JObj m) =>
      match fold_left set_field m (mkRetries 0 "", None) with
      | (r, None) => Ok (Some r)
      | (_, Some e) => Err e
      end
  | Some j => Err (UnmarshalTypeError (kind j) "shared.Retries" "")
  end.

End RetriesJson.

(** ** The conversion helpers ([shared/interface.go], lines 134-320) *)

Import GoJson RetriesJson.

Section RangeAppend.
Context {A B : Type}.
Variable f : A -> result B.

(** [for _, x := range l { y, err := f(x); if err != nil { return err };
    acc = append(acc, y) }]. *)
Fixpoint range_list (l : list A) (acc : slice B) : result (slice B) :=
  match l with
  | [] => Ok acc
  | x :: l' => y <- f x ;; range_list l' (append_slice acc y)
  end.

(** The loop over a slice; a nil slice has no elements. *)
Definition range_append (s : slice A) (acc : slice B) : result (slice B) :=
  match s with
  | None => Ok acc
  | Some l => range_list l acc
  end.
End RangeAppend.

(** [len(b) > 0]. *)
Definition nonempty (b : bytes) : bool :=
  match b with
  | "" => false
  | String _ _ => true
  end.

(** [Node{}]. *)
Definition zeroNode : Node := mkNode "" "" None None None None None.

(** [ExecutionContext{}]. *)
Definition zeroExecutionContext : ExecutionContext :=
  mkExecutionContext None None None VNil None.

Definition toProtoNode (node : option Node) : result (option proto.Node) :=
  match node with
  | None => Ok None
  | Some n =>
      (fix conv (n : Node) : result (option proto.Node) :=
         let toProtoNode (p : option Node) :=
           match p with
           | None => Ok None
           | Some c => conv c
           end in
         with_ <- MarshalMap (With n) ;;
         doNodes <- range_append toProtoNode (Do n) None ;;
         retries <- MarshalRetries (Retries' n) ;;
         onFailureNodes <- range_append toProtoNode (OnFailure n) None ;;
         Ok (Some (proto.mkNode (ID n) (Uses n) with_ (Needs n) doNodes
                     retries onFailureNodes))) n
  end.

Definition toProtoExecutionContext (ctx : ExecutionContext)
  : result proto.ExecutionContext :=
  triggerData <- MarshalMap (TriggerData ctx) ;;
  nodeOutputs <- MarshalMap (NodeOutputs ctx) ;;
  currentItem <- Marshal (CurrentItem ctx) ;;
  failureData <- MarshalMap (FailureData ctx) ;;
  Ok (proto.mkExecutionContext triggerData nodeOutputs (Secrets ctx)
        currentItem failureData).

Definition toProtoValue (v : value) : result bytes := Marshal v.

Definition fromProtoNode (pNode : option proto.Node) : result Node :=
  match pNode with
  | None => Ok zeroNode
  | Some p =>
      (fix conv (p : proto.Node) : result Node :=
         let fromProtoNode (q : option proto.Node) :=
           match q with
           | None => Ok zeroNode
           | Some c => conv c
           end in
         with_ <- UnmarshalMap (proto.With p) ;;
         doNodes <-
           range_append (fun q => dn <- fromProtoNode q ;; Ok (Some dn))
             (proto.Do p) None ;;
         retries <-
           (if nonempty (proto.Retries p)
               && negb (proto.Retries p =? "null")%string
            then UnmarshalRetries (proto.Retries p)
            else Ok None) ;;
         onFailureNodes <-
           range_append (fun q => fn <- fromProtoNode q ;; Ok (Some fn))
             (proto.OnFailure p) None ;;
         Ok (mkNode (proto.Id p) (proto.Uses p) with_ (proto.Needs p) doNodes
               retries onFailureNodes)) p
  end.

(** The four locals are declared [map[string]interface{}] and start nil;
    [CurrentItem] receives its local as an [interface{}] holding a map. *)
Definition fromProtoExecutionContext (pCtx : proto.ExecutionContext)
  : result ExecutionContext :=
  triggerData <-
    (if nonempty (proto.TriggerData pCtx)
     then UnmarshalMap (proto.TriggerData pCtx) else Ok None) ;;
  nodeOutputs <-
    (if nonempty (proto.NodeOutputs pCtx)
     then UnmarshalMap (proto.NodeOutputs pCtx) else Ok None) ;;
  currentItem <-
    (if nonempty (proto.CurrentItem pCtx)
     then UnmarshalMap (proto.CurrentItem pCtx) else Ok None) ;;
  failureData <-
    (if nonempty (proto.FailureData pCtx)
     then UnmarshalMap (proto.FailureData pCtx) else Ok None) ;;
  Ok (mkExecutionContext triggerData nodeOutputs (proto.Secrets pCtx)
        (VMap currentItem) failureData).

Definition fromProtoValue (b : bytes) : result value :=
  if nonempty b then Unmarshal b else Ok VNil.

Definition toProtoExecuteRequest (node : Node) (ctx : ExecutionContext)
  : result proto.ExecuteRequest :=
  protoNode <- toProtoNode (Some node) ;;
  protoCtx <- toProtoExecutionContext ctx ;;
  Ok (proto.mkExecuteRequest protoNode protoCtx).

Definition fromProtoExecuteRequest (req : proto.ExecuteRequest)
  : result (Node * ExecutionContext) :=
  node <- fromProtoNode (proto.Node' req) ;;
  execCtx <- fromProtoExecutionContext (proto.Context req) ;;
  Ok (node, execCtx).

(** ** The capability set and its adapters ([shared/interface.go], lines 14-132) *)

Definition HandshakeConfig : plugin.HandshakeConfig :=
  plugin.mkHandshakeConfig 1 "ORKESTRA_PLUGIN" "hello".

(** [NodeExecutor], the interface every node plugin implements; an
    interface value is the pair of its methods. *)
Record NodeExecutor : Type := mkNodeExecutor {
  Execute : Node -> ExecutionContext -> result value;
  GetCapabilities : result (slice string)
}.

(** The gRPC client. *)
Module NodeExecutorGRPC.

Record t : Type := mk {
  client : proto.NodeExecutorClient
}.

Definition Execute (m : t) (node : Node) (ctx : ExecutionContext)
  : result value :=
  match toProtoExecuteRequest node ctx with
  | Err err => Err (WrapError "failed to convert request for gRPC" err)
  | Ok req =>
      match proto.ClientExecute (client m) req with
      | Err err => Err err
      | Ok resp => fromProtoValue (proto.Result resp)
      end
  end.

Definition GetCapabilities (m : t) : result (slice string) :=
  match proto.ClientGetCapabilities (client m) proto.mkEmpty with
  | Err err => Err err
  | Ok resp => Ok (proto.Uses' resp)
  end.

(** The client is itself a [NodeExecutor]. *)
Definition as_NodeExecutor (m : t) : NodeExecutor :=
  mkNodeExecutor (Execute m) (GetCapabilities m).

End NodeExecutorGRPC.

Module NodeExecutorGRPCServer.

Record t : Type := mk {
  Impl : NodeExecutor
}.

Definition Execute (s : t) (req : proto.ExecuteRequest)
  : result proto.ExecuteResponse :=
  match fromProtoExecuteRequest req with
  | Err err => Err (WrapError "failed to convert request from proto" err)
  | Ok (node, execCtx) =>
      match Execute (Impl s) node execCtx with
      | Err err => Err err
      | Ok result =>
          match toProtoValue result with
          | Err err => Err (WrapError "failed to convert result to proto" err)
          | Ok protoResult => Ok (proto.mkExecuteResponse protoResult)
          end
      end
  end.

Definition GetCapabilities (s : t) (req : proto.Empty)
  : result proto.GetCapabilitiesResponse :=
  match GetCapabilities (Impl s) with
  | Err err => Err err
  | Ok uses => Ok (proto.mkGetCapabilitiesResponse uses)
  end.

(** The server as the [proto.NodeExecutorServer] it implements. *)
Definition as_NodeExecutorServer (s : t) : proto.NodeExecutorServer :=
  proto.mkNodeExecutorServer (Execute s) (GetCapabilities s).

End NodeExecutorGRPCServer.

(** The go-plugin wrapper.  A method returning [(interface{}, error)] is a
    pair: the object, if any, and the error, if any. *)
Module NodeExecutorPlugin.

Record t : Type := mk {
  Impl : NodeExecutor
}.

(** The transport objects an entry point can hand back. *)
Inductive object : Type :=
| ClientObject (c : NodeExecutorGRPC.t).

Definition Server (p : t) (b : plugin.MuxBroker) : option object * option error :=
  (None, Some (ErrorString "NetRPC is not supported")).

Definition Client (p : t) (b : plugin.MuxBroker) (c : plugin.rpcClient)
  : option object * option error :=
  (None, Some (ErrorString "NetRPC is not supported")).

(** Registers the service on [s]; the updated server stands for the
    mutation. *)
Definition GRPCServer (p : t) (broker : plugin.GRPCBroker) (s : grpc.Server)
  : grpc.Server * option error :=
  (proto_grpc.RegisterNodeExecutorServer s
     (NodeExecutorGRPCServer.as_NodeExecutorServer
        (NodeExecutorGRPCServer.mk (Impl p))),
   None).

Definition GRPCClient (p : t) (broker : plugin.GRPCBroker) (c : grpc.ClientConn)
  : option object * option error :=
  (Some (ClientObject (NodeExecutorGRPC.mk (proto_grpc.NewNodeExecutorClient c))),
   None).

End NodeExecutorPlugin.

(** ** Values that survive the wire *)

Module Native.
Import GoJson.

(** Induction over values, through the nested lists. *)
Section ValueInd.
Variable P : value -> Prop.
Hypothesis HNil : P VNil.
Hypothesis HBool : forall b, P (VBool b).
Hypothesis HInt : forall z, P (VInt z).
Hypothesis HFloat : forall z, P (VFloat64 z).
Hypothesis HString : forall s, P (VString s).
Hypothesis HSliceNil : P (VSlice None).
Hypothesis HSlice : forall l, Forall P l -> P (VSlice (Some l)).
Hypothesis HMapNil : P (VMap None).
Hypothesis HMap :
  forall m, Forall (fun kv => P (snd kv)) m -> P (VMap (Some m)).
Hypothesis HChan : P VChan.

Fixpoint value_ind' (v : value) : P v :=
  match v with
  | VNil => HNil
  | VBool b => HBool b
  | VInt z => HInt z
  | VFloat64 z => HFloat z
  | VString s => HString s
  | VSlice None => HSliceNil
  | VSlice (Some l) =>
      HSlice l ((fix go (l : list value) : Forall P l :=
                   match l with
                   | [] => Forall_nil _
                   | x :: l' => Forall_cons x (value_ind' x) (go l')
                   end) l)
  | VMap None => HMapNil
  | VMap (Some m) =>
      HMap m ((fix go (m : list (string * value))
                 : Forall (fun kv => P (snd kv)) m :=
                 match m with
                 | [] => Forall_nil _
                 | kv :: m' => Forall_cons kv (value_ind' (snd kv)) (go m')
                 end) m)
  | VChan => HChan
  end.
End ValueInd.

(** The values [json.Unmarshal] itself stores in an [interface{}]: nil,
    [bool], [float64] (here: an integer a [float64] holds exactly),
    [string], non-nil [[]interface{}] and non-nil [map[string]interface{}]
    of such values. *)
Fixpoint json_native (v : value) : bool :=
  match v with
  | VNil | VBool _ | VString _ => true
  | VFloat64 z => (Z.abs z <=? 2 ^ 53)%Z
  | VSlice (Some l) => forallb json_native l
  | VMap (Some m) =>
      sorted_keys m && forallb (fun kv => json_native (snd kv)) m
  | _ => false
  end.

(** A map the decoder can have built: nil, or key-sorted with native
    values. *)
Definition native_map (m : gomap) : bool :=
  match m with
  | None => true
  | Some kvs => json_native (VMap (Some kvs))
  end.

End Native.

(** ** Notions used to state the properties of the codec *)

Module Codec.
Import GoJson RetriesJson Native.

(** Induction over node trees, through the child slices. *)
Section NodeInd.
Variable P : Node -> Prop.

Definition children_all (s : slice (option Node)) : Prop :=
  match s with
  | None => True
  | Some l => Forall (fun c => match c with None => True | Some c' => P c' end) l
  end.

Hypothesis HNode :
  forall id uses w needs do r onf,
    children_all do -> children_all onf ->
    P (mkNode id uses w needs do r onf).

Fixpoint Node_ind' (n : Node) : P n :=
  let kids (s : slice (option Node)) : children_all s :=
    match s return children_all s with
    | None => I
    | Some l =>
        (fix go (l : list (option Node))
           : Forall (fun c => match c with None => True | Some c' => P c' end) l :=
           match l with
           | [] => Forall_nil _
           | c :: l' =>
               Forall_cons c
                 (match c return match c with None => True | Some c' => P c' end
                  with
                  | None => I
                  | Some c' => Node_ind' c'
                  end)
                 (go l')
           end) l
    end in
  match n with
  | mkNode id uses w needs do r onf =>
      HNode id uses w needs do r onf (kids do) (kids onf)
  end.
End NodeInd.

(** Induction over envelope trees. *)
Section ProtoNodeInd.
Variable P : proto.Node -> Prop.

Definition pchildren_all (s : slice (option proto.Node)) : Prop :=
  match s with
  | None => True
  | Some l => Forall (fun c => match c with None => True | Some c' => P c' end) l
  end.

Hypothesis HNode :
  forall id uses w needs do r onf,
    pchildren_all do -> pchildren_all onf ->
    P (proto.mkNode id uses w needs do r onf).

Fixpoint protoNode_ind' (n : proto.Node) : P n :=
  let kids (s : slice (option proto.Node)) : pchildren_all s :=
    match s return pchildren_all s with
    | None => I
    | Some l =>
        (fix go (l : list (option proto.Node))
           : Forall (fun c => match c with None => True | Some c' => P c' end) l :=
           match l with
           | [] => Forall_nil _
           | c :: l' =>
               Forall_cons c
                 (match c return match c with None => True | Some c' => P c' end
                  with
                  | None => I
                  | Some c' => protoNode_ind' c'
                  end)
                 (go l')
           end) l
    end in
  match n with
  | proto.mkNode id uses w needs do r onf =>
      HNode id uses w needs do r onf (kids do) (kids onf)
  end.
End ProtoNodeInd.








(** An error of [encoding/json] itself, with nothing wrapped around it. *)
Definition is_json_error (e : error) : bool :=
  match e with
  | SyntaxError _ | UnmarshalTypeError _ _ _ | UnsupportedTypeError _ => true
  | _ => false
  end.


(** A plugin serving [impl] and a host connected to it, set up through the
    two gRPC entry points of the wrapper. *)
Definition served (impl : NodeExecutor) : grpc.Server :=
  fst (NodeExecutorPlugin.GRPCServer (NodeExecutorPlugin.mk impl)
         plugin.mkGRPCBroker (grpc.mkServer [])).

Definition dialled (impl : NodeExecutor) : NodeExecutorGRPC.t :=
  NodeExecutorGRPC.mk
    (proto_grpc.NewNodeExecutorClient (grpc.mkClientConn (served impl))).

End Codec.

(** ** The recursion of the codec, call by call *)

(** The converters above recurse on the structure of a tree.  The Go
    functions recurse through pointers; the definitions below follow them
    call by call, with a bound on the depth of the calls, and answer [None]
    when the bound is reached before the conversion returns. *)
Module Calls.
Import GoJson RetriesJson.

(** A [*Node] as Go has it: nil, or the address of a cell whose children
    are pointers again.  Cells may point anywhere, also back. *)
Definition ptr : Type := option nat.

Record cell : Type := mkCell {
  cID : string;
  cUses : string;
  cWith : gomap;
  cNeeds : slice string;
  cDo : slice ptr;
  cRetries : option Retries;
  cOnFailure : slice ptr
}.

Definition heap : Type := list cell.

Section RangeAppendP.
Context {A B : Type}.
Variable f : A -> option (result B).

Fixpoint range_listP (l : list A) (acc : slice B) : option (result (slice B)) :=
  match l with
  | [] => Some (Ok acc)
  | x :: l' =>
      match f x with
      | None => None
      | Some (Err e) => Some (Err e)
      | Some (Ok y) => range_listP l' (append_slice acc y)
      end
  end.

Definition range_appendP (s : slice A) (acc : slice B)
  : option (result (slice B)) :=
  match s with
  | None => Some (Ok acc)
  | Some l => range_listP l acc
  end.
End RangeAppendP.

(** [toProtoNode] on a heap, at most [fuel] calls deep. *)
Fixpoint toProtoNodeH (h : heap) (fuel : nat) (node : ptr)
  : option (result (option proto.Node)) :=
  match fuel with
  | O => None
  | S fuel' =>
      match node with
      | None => Some (Ok None)
      | Some a =>
          match nth_error h a with
          | None => None
          | Some n =>
              match MarshalMap (cWith n) with
              | Err e => Some (Err e)
              | Ok with_ =>
                  match range_appendP (toProtoNodeH h fuel') (cDo n) None with
                  | None => None
                  | Some (Err e) => Some (Err e)
                  | Some (Ok doNodes) =>
                      match MarshalRetries (cRetries n) with
                      | Err e => Some (Err e)
                      | Ok retries =>
                          match range_appendP (toProtoNodeH h fuel')
                                  (cOnFailure n) None with
                          | None => None
                          | Some (Err e) => Some (Err e)
                          | Some (Ok onFailureNodes) =>
                              Some (Ok (Some (proto.mkNode (cID n) (cUses n)
                                                with_ (cNeeds n) doNodes
                                                retries onFailureNodes)))
                          end
                      end
                  end
              end
          end
      end
  end.

(** [fromProtoNode], at most [fuel] calls deep. *)
Fixpoint fromProtoNodeF (fuel : nat) (pNode : option proto.Node)
  : option (result Node) :=
  match fuel with
  | O => None
  | S fuel' =>
      match pNode with
      | None => Some (Ok zeroNode)
      | Some p =>
          let child (q : option proto.Node) : option (result (option Node)) :=
            match fromProtoNodeF fuel' q with
            | None => None
            | Some (Err e) => Some (Err e)
            | Some (Ok dn) => Some (Ok (Some dn))
            end in
          match UnmarshalMap (proto.With p) with
          | Err e => Some (Err e)
          | Ok with_ =>
              match range_appendP child (proto.Do p) None with
              | None => None
              | Some (Err e) => Some (Err e)
              | Some (Ok doNodes) =>
                  match (if nonempty (proto.Retries p)
                            && negb (proto.Retries p =? "null")%string
                         then UnmarshalRetries (proto.Retries p)
                         else Ok None) with
                  | Err e => Some (Err e)
                  | Ok retries =>
                      match range_appendP child (proto.OnFailure p) None with
                      | None => None
                      | Some (Err e) => Some (Err e)
                      | Some (Ok onFailureNodes) =>
                          Some (Ok (mkNode (proto.Id p) (proto.Uses p) with_
                                      (proto.Needs p) doNodes retries
                                      onFailureNodes))
                      end
                  end
              end
          end
      end
  end.

Section All2.
Context {A B : Type}.
Variable R : A -> B -> Prop.

Fixpoint all2 (la : list A) (lb : list B) {struct lb} : Prop :=
  match la, lb with
  | [], [] => True
  | a :: la', b :: lb' => R a b /\ all2 la' lb'
  | _, _ => False
  end.

Definition all2_slice (sa : slice A) (sb : slice B) : Prop :=
  match sa, sb with
  | None, None => True
  | Some la, Some lb => all2 la lb
  | _, _ => False
  end.
End All2.

(** The cell at address [a] of [h] is the root of the tree [t]: the
    part of the heap reachable from [a] unfolds to [t], which is finite. *)
Fixpoint represents (h : heap) (t : Node) (a : nat) {struct t} : Prop :=
  let kid (p : ptr) (c : option Node) : Prop :=
    match p, c with
    | None, None => True
    | Some a', Some t' => represents h t' a'
    | _, _ => False
    end in
  match nth_error h a with
  | None => False
  | Some n =>
      cID n = ID t /\ cUses n = Uses t /\ cWith n = With t
      /\ cNeeds n = Needs t /\ cRetries n = Retries' t
      /\ all2_slice kid (cDo n) (Do t)
      /\ all2_slice kid (cOnFailure n) (OnFailure t)
  end.

Definition represents_ptr (h : heap) (p : ptr) (c : option Node) : Prop :=
  match p, c with
  | None, None => True
  | Some a', Some t' => represents h t' a'
  | _, _ => False
  end.

(** The number of nested calls a tree needs. *)
Fixpoint height (n : Node) : nat :=
  let kids (s : slice (option Node)) : nat :=
    match s with
    | None => 0
    | Some l =>
        fold_right
          (fun c d => Nat.max (match c with None => 1 | Some c' => height c' end) d)
          0 l
    end in
  S (Nat.max (kids (Do n)) (kids (OnFailure n))).

Definition height_ptr (c : option Node) : nat :=
  match c with None => 1 | Some c' => height c' end.

Definition height_kids (s : slice (option Node)) : nat :=
  match s with
  | None => 0
  | Some l => fold_right (fun c d => Nat.max (height_ptr c) d) 0 l
  end.

Fixpoint pheight (p : proto.Node) : nat :=
  let kids (s : slice (option proto.Node)) : nat :=
    match s with
    | None => 0
    | Some l =>
        fold_right
          (fun c d => Nat.max (match c with None => 1 | Some c' => pheight c' end) d)
          0 l
    end in
  S (Nat.max (kids (proto.Do p)) (kids (proto.OnFailure p))).

Definition pheight_ptr (c : option proto.Node) : nat :=
  match c with None => 1 | Some c' => pheight c' end.

Definition pheight_kids (s : slice (option proto.Node)) : nat :=
  match s with
  | None => 0
  | Some l => fold_right (fun c d => Nat.max (pheight_ptr c) d) 0 l
  end.

(** What it means for the call-by-call conversion of the tree at an
    address to return, and to return what [toProtoNode] computes. *)
Definition returns (h : heap) (t : Node) : Prop :=
  forall a fuel,
    represents h t a -> height t <= fuel ->
    toProtoNodeH h fuel (Some a) = Some (toProtoNode (Some t)).

Definition preturns (p : proto.Node) : Prop :=
  forall fuel, pheight p <= fuel ->
               fromProtoNodeF fuel (Some p) = Some (fromProtoNode (Some p)).

Definition child (f : nat) (q : option proto.Node) : option (result (option Node)) :=
  match fromProtoNodeF f q with
  | None => None
  | Some (Err e) => Some (Err e)
  | Some (Ok dn) => Some (Ok (Some dn))
  end.

(** A one-cell heap whose cell lists itself under [Do]. *)
Definition self_loop : heap :=
  [mkCell "n1" "log" None None (Some [Some 0]) None None].

End Calls.

(** ** The inputs the statements below are checked on *)

Module Examples.
Import Json GoJson Calls.

(** The example of the specification: a node with one child and no retry
    policy. *)
Definition example_node : Node :=
  mkNode "n1" "http.get" (Some [("url", VString "https://x")]) None
    (Some [Some (mkNode "n1.1" "log" None None None None None)]) None None.

Definition nil_child_node : Node :=
  mkNode "n1" "log" None None (Some [None]) None None.


Definition array_with_envelope : proto.Node :=
  proto.mkNode "n1" "log" "[1,2]" None None "null" None.

Definition example_ctx : ExecutionContext :=
  mkExecutionContext
    (Some [("event", VString "push")])
    None
    (Some [("token", "s3cr3t")])
    (VMap (Some [("index", VFloat64 2); ("item", VSlice (Some [VBool true; VNil]))]))
    (Some []).

Definition string_item_ctx : ExecutionContext :=
  mkExecutionContext None None None (VString "item-7") None.

Definition empty_ctx_envelope : proto.ExecutionContext :=
  proto.mkExecutionContext "" "" (Some [("token", "s3cr3t")]) "" "".



(** An implementation that always fails, and the request the caller-side
    adapter builds from the example node and context. *)
Definition failing_impl : NodeExecutor :=
  mkNodeExecutor (fun _ _ => Err (ErrorString "boom")) (Ok None).

Definition example_request : proto.ExecuteRequest :=
  match toProtoExecuteRequest example_node example_ctx with
  | Ok req => req
  | Err _ =>
      proto.mkExecuteRequest None (proto.mkExecutionContext "" "" None "" "")
  end.

(** The example node of the specification, laid out in two cells. *)
Definition example_heap : heap :=
  [mkCell "n1" "http.get" (Some [("url", VString "https://x")]) None
     (Some [Some 1]) None None;
   mkCell "n1.1" "log" None None None None None].

End Examples.

(** ** Notions used to state further properties of the helpers *)

Module Shape.
Import GoJson RetriesJson.

(** The elements of a slice, in order; the nil slice has none. *)
Definition elems {A : Type} (s : slice A) : list A :=
  match s with
  | None => []
  | Some l => l
  end.

(** The slice a loop leaves behind that starts from nil and appends the
    elements of [ys] one by one. *)
Definition collected {A : Type} (ys : list A) : slice A :=
  match ys with
  | [] => None
  | _ => Some ys
  end.

(** A node tree without a nil child pointer and without an empty, non-nil
    child slice, at any depth. *)
Fixpoint solid (n : Node) : bool :=
  let kids (s : slice (option Node)) : bool :=
    match s with
    | None => true
    | Some [] => false
    | Some l =>
        forallb (fun c => match c with None => false | Some c' => solid c' end) l
    end in
  kids (Do n) && kids (OnFailure n).

Definition solid_kids (s : slice (option Node)) : bool :=
  match s with
  | None => true
  | Some [] => false
  | Some l =>
      forallb (fun c => match c with None => false | Some c' => solid c' end) l
  end.

(** Every [With] in the tree is a map [json.Marshal] accepts. *)
Fixpoint encodable (n : Node) : bool :=
  let kids (s : slice (option Node)) : bool :=
    match s with
    | None => true
    | Some l =>
        forallb (fun c => match c with None => true | Some c' => encodable c' end) l
    end in
  is_ok (MarshalMap (With n)) && kids (Do n) && kids (OnFailure n).

Definition encodable_kids (s : slice (option Node)) : bool :=
  match s with
  | None => true
  | Some l =>
      forallb (fun c => match c with None => true | Some c' => encodable c' end) l
  end.

(** Every [With] blob in the envelope tree decodes to a map, and every
    [Retries] blob that is neither empty nor [null] decodes to a policy. *)
Fixpoint decodable (p : proto.Node) : bool :=
  let kids (s : slice (option proto.Node)) : bool :=
    match s with
    | None => true
    | Some l =>
        forallb (fun c => match c with None => true | Some c' => decodable c' end) l
    end in
  is_ok (UnmarshalMap (proto.With p))
  && kids (proto.Do p)
  && (if nonempty (proto.Retries p) && negb (proto.Retries p =? "null")%string
      then is_ok (UnmarshalRetries (proto.Retries p)) else true)
  && kids (proto.OnFailure p).

Definition decodable_kids (s : slice (option proto.Node)) : bool :=
  match s with
  | None => true
  | Some l =>
      forallb (fun c => match c with None => true | Some c' => decodable c' end) l
  end.

(** A value that is not nil and not a map: what [CurrentItem] may hold
    besides a map. *)
Definition not_a_map (v : value) : bool :=
  match v with
  | VBool _ | VInt _ | VFloat64 _ | VString _ | VSlice (Some _) => true
  | _ => false
  end.


(** A node whose parameters hold a channel, and a client stub that answers
    every call with an empty result. *)
Definition chan_node : Node :=
  mkNode "n1" "log" (Some [("events", VChan)]) None None None None.

Definition answering_stub : proto.NodeExecutorClient :=
  proto.mkNodeExecutorClient
    (fun _ => Ok (proto.mkExecuteResponse ""))
    (fun _ => Ok (proto.mkGetCapabilitiesResponse None)).

(** An implementation that echoes the identifier of the node it is given,
    and one that declares two capabilities. *)
Definition echo_impl : NodeExecutor :=
  mkNodeExecutor (fun node _ => Ok (VString (ID node)))
    (Ok (Some ["http.get"; "log"])).

(** A context whose current item is a list. *)
Definition list_item_ctx : ExecutionContext :=
  mkExecutionContext (Some [("event", VString "push")]) None None
    (VSlice (Some [VFloat64 1; VFloat64 2])) None.

(** An envelope with a nil child, and a context envelope with secrets. *)
Definition nil_child_envelope : proto.Node :=
  proto.mkNode "n1" "log" "null" None (Some [None]) "null" None.

End Shape.

(** * Properties *)

(** ** The JSON text layer *)

Module JsonFacts.
Import Json.

(** *** Reading back what was printed *)

Lemma append_assoc (a b c : string) : (a ++ b) ++ c = a ++ (b ++ c).
Proof. induction a as [|x a IH]; simpl; [reflexivity | now rewrite IH]. Qed.

Lemma length_append (a b : string) :
  String.length (a ++ b) = String.length a + String.length b.
Proof. induction a as [|x a IH]; simpl; [reflexivity | now rewrite IH]. Qed.

Lemma parse_chars_escape_char (c : ascii) (r : string) :
  parse_chars (escape_char c ++ r) = prepend (String c "") (parse_chars r).
Proof.
  destruct c as [[] [] [] [] [] [] [] []]; reflexivity.
Qed.

Lemma parse_chars_escape (s rest : string) :
  parse_chars (escape s ++ String dquote rest) = Some (s, rest).
Proof.
  induction s as [|c s IH]; simpl.
  - reflexivity.
  - rewrite append_assoc, parse_chars_escape_char, IH. reflexivity.
Qed.

Lemma span_digits_print (d : uint) (rest : string) :
  no_digit_head rest = true ->
  span_digits (NilEmpty.string_of_uint d ++ rest) = (d, rest).
Proof.
  intros Hr.
  induction d as [|d IH|d IH|d IH|d IH|d IH|d IH|d IH|d IH|d IH|d IH];
    simpl; try (rewrite IH; reflexivity).
  destruct rest as [|c r]; [reflexivity|].
  simpl in *. destruct (digit_of c); [discriminate | reflexivity].
Qed.

Lemma unorm_not_Nil (d : uint) : unorm d <> Nil.
Proof. unfold unorm. destruct (nzhead d); discriminate. Qed.

Lemma parse_N_print (n : N) (rest : string) :
  no_digit_head rest = true ->
  parse_N (print_N n ++ rest) = Some (n, rest).
Proof.
  intros Hr. unfold parse_N, print_N.
  rewrite span_digits_print by assumption.
  assert (Hn : unorm (N.to_uint n) = N.to_uint n).
  { rewrite <- Unsigned.to_of, Unsigned.of_to. reflexivity. }
  assert (Hz : N.to_uint n <> Nil) by (rewrite <- Hn; apply unorm_not_Nil).
  destruct (uint_eq_dec (unorm (N.to_uint n)) (N.to_uint n)) as [_|Hne];
    [|contradiction].
  rewrite Unsigned.of_to.
  destruct (N.to_uint n); [contradiction|reflexivity..].
Qed.

Lemma print_N_head (n : N) (rest : string) :
  exists c r, print_N n ++ rest = String c r /\ digit_of c <> None.
Proof.
  unfold print_N.
  assert (Hz : N.to_uint n <> Nil).
  { rewrite <- (Unsigned.of_to n), Unsigned.to_of. apply unorm_not_Nil. }
  destruct (N.to_uint n); [contradiction|..]; simpl;
    eexists; eexists; (split; [reflexivity | discriminate]).
Qed.

Lemma parse_Z_digit (c : ascii) (r : string) :
  digit_of c <> None ->
  parse_Z (String c r) =
  match parse_N (String c r) with
  | Some (n, rest) => Some (Z.of_N n, rest)
  | None => None
  end.
Proof.
  intros H.
  destruct c as [[] [] [] [] [] [] [] []];
    try (exfalso; apply H; reflexivity); reflexivity.
Qed.

Lemma parse_Z_print (z : Z) (rest : string) :
  no_digit_head rest = true ->
  parse_Z (print_Z z ++ rest) = Some (z, rest).
Proof.
  intros Hr.
  assert (Hpos : forall n, parse_Z (print_N n ++ rest) = Some (Z.of_N n, rest)).
  { intros n. destruct (print_N_head n rest) as (c & r & E & Hc).
    rewrite E, parse_Z_digit by assumption.
    rewrite <- E, parse_N_print by assumption. reflexivity. }
  destruct z as [|p|p].
  - apply (Hpos 0%N).
  - apply (Hpos (Npos p)).
  - unfold print_Z. simpl. rewrite parse_N_print by assumption. reflexivity.
Qed.

Lemma num_head_print_Z (z : Z) (rest : string) :
  num_head (print_Z z ++ rest) = true.
Proof.
  assert (Hpos : forall n, num_head (print_N n ++ rest) = true).
  { intros n. destruct (print_N_head n rest) as (c & r & E & Hc).
    rewrite E. simpl. destruct (digit_of c); [reflexivity | contradiction]. }
  destruct z as [|p|p]; [apply (Hpos 0%N) | apply (Hpos (Npos p)) | reflexivity].
Qed.

(** The defining equations of the parser, one per kind of value. *)

Lemma parse_value_num (f : nat) (s : string) :
  num_head s = true ->
  parse_value (S f) s =
  match parse_Z s with
  | Some (z, rest) => Some (JNum z, rest)
  | None => None
  end.
Proof.
  intros H. destruct s as [|c r]; [discriminate|].
  destruct c as [[] [] [] [] [] [] [] []];
    try (vm_compute in H; discriminate); reflexivity.
Qed.

Lemma parse_value_str (f : nat) (s : string) :
  parse_value (S f) (String dquote s) =
  match parse_chars s with
  | Some (str, rest) => Some (JStr str, rest)
  | None => None
  end.
Proof. reflexivity. Qed.

Lemma parse_value_arr (f : nat) (c : ascii) (r : string) :
  value_head c = true ->
  parse_value (S f) (String "[" (String c r)) =
  match parse_elements f (String c r) with
  | Some (l, rest) => Some (JArr l, rest)
  | None => None
  end.
Proof.
  intros H.
  destruct c as [[] [] [] [] [] [] [] []];
    try (vm_compute in H; discriminate); reflexivity.
Qed.

Lemma parse_value_obj (f : nat) (r : string) :
  parse_value (S f) (String "{" (String dquote r)) =
  match parse_members f (String dquote r) with
  | Some (m, rest) => Some (JObj m, rest)
  | None => None
  end.
Proof. reflexivity. Qed.

Lemma parse_elements_S (f : nat) (s : string) :
  parse_elements (S f) s =
  match parse_value f s with
  | None => None
  | Some (x, r) =>
      match skip_ws r with
      | String "," r' =>
          match parse_elements f r' with
          | Some (l, rest) => Some (x :: l, rest)
          | None => None
          end
      | String "]" rest => Some ([x], rest)
      | _ => None
      end
  end.
Proof. reflexivity. Qed.

Lemma parse_members_S (f : nat) (s : string) :
  parse_members (S f) (String dquote s) =
  match parse_chars s with
  | None => None
  | Some (k, r1) =>
      match skip_ws r1 with
      | String ":" r2 =>
          match parse_value f r2 with
          | None => None
          | Some (x, r3) =>
              match skip_ws r3 with
              | String "," r4 =>
                  match parse_members f r4 with
                  | Some (m, rest) => Some ((k, x) :: m, rest)
                  | None => None
                  end
              | String "}" rest => Some ([(k, x)], rest)
              | _ => None
              end
          end
      | _ => None
      end
  end.
Proof. reflexivity. Qed.

Lemma print_head (j : json) (rest : string) :
  exists c r, print j ++ rest = String c r /\ value_head c = true.
Proof.
  destruct j as [|[]|z|s|l|m]; simpl;
    try (eexists; eexists; split; [reflexivity|reflexivity]).
  assert (Hpos : forall n, exists c r,
             print_N n ++ rest = String c r /\ value_head c = true).
  { intros n. destruct (print_N_head n rest) as (c & r & E & Hc).
    exists c, r. split; [assumption|]. unfold value_head.
    destruct (digit_of c); [reflexivity | contradiction]. }
  destruct z as [|p|p]; [apply (Hpos 0%N) | apply (Hpos (Npos p)) |].
  eexists; eexists; split; reflexivity.
Qed.

Lemma parse_elements_print (l : list json) :
  Forall reads_back l ->
  forall x fuel rest,
    reads_back x ->
    list_sum (map (fun y => S (cost y)) (x :: l)) <= fuel ->
    parse_elements fuel (join (map print (x :: l)) ++ String "]" rest)
    = Some (x :: l, rest).
Proof.
  induction 1 as [|y l Hy Hl IH]; intros x fuel rest Hx Hf.
  - destruct fuel as [|f]; [simpl in Hf; lia|].
    cbn [map join]. rewrite parse_elements_S.
    rewrite Hx by (simpl in Hf; lia || reflexivity). reflexivity.
  - destruct fuel as [|f]; [simpl in Hf; lia|].
    change (join (map print (x :: y :: l)))
      with (print x ++ String "," (join (map print (y :: l)))).
    rewrite append_assoc. cbn [String.append].
    rewrite parse_elements_S.
    rewrite Hx by (simpl in Hf; lia || reflexivity).
    change (skip_ws (String "," ?r)) with (String "," r).
    cbv beta iota.
    rewrite IH; [reflexivity | assumption |].
    simpl in Hf |- *. lia.
Qed.

Lemma print_arr (l : list json) :
  print (JArr l) = String "[" (join (map print l) ++ "]").
Proof. reflexivity. Qed.

Lemma print_obj (m : list (string * json)) :
  print (JObj m) = String "{" (join (map print_member m) ++ "}").
Proof. reflexivity. Qed.

Lemma print_member_shape (k : string) (x : json) (r : string) :
  print_member (k, x) ++ r
  = String dquote (escape k ++ String dquote (String ":" (print x ++ r))).
Proof.
  unfold print_member, print_string. simpl.
  rewrite !append_assoc. simpl. reflexivity.
Qed.

Lemma parse_members_print (m : list (string * json)) :
  Forall (fun kv => reads_back (snd kv)) m ->
  forall k x fuel rest,
    reads_back x ->
    list_sum (map (fun kv => S (cost (snd kv))) ((k, x) :: m)) <= fuel ->
    parse_members fuel (join (map print_member ((k, x) :: m)) ++ String "}" rest)
    = Some ((k, x) :: m, rest).
Proof.
  induction 1 as [|[k' y] m Hy Hm IH]; intros k x fuel rest Hx Hf.
  - destruct fuel as [|f]; [simpl in Hf; lia|].
    cbn [map join]. rewrite print_member_shape, parse_members_S.
    rewrite parse_chars_escape.
    change (skip_ws (String ":" ?r)) with (String ":" r). cbv beta iota.
    rewrite Hx by (simpl in Hf; lia || reflexivity). reflexivity.
  - destruct fuel as [|f]; [simpl in Hf; lia|].
    change (join (map print_member ((k, x) :: (k', y) :: m)))
      with (print_member (k, x)
              ++ String "," (join (map print_member ((k', y) :: m)))).
    rewrite append_assoc, print_member_shape, parse_members_S.
    rewrite parse_chars_escape.
    change (skip_ws (String ":" ?r)) with (String ":" r). cbv beta iota.
    cbn [String.append].
    rewrite Hx by (simpl in Hf; lia || reflexivity).
    change (skip_ws (String "," ?r)) with (String "," r). cbv beta iota.
    rewrite IH; [reflexivity | assumption |].
    simpl in Hf |- *. lia.
Qed.

Lemma parse_value_print (j : json) : reads_back j.
Proof.
  induction j as [|b|z|s|l IH|m IH] using json_ind'; intros fuel rest Hf Hr;
    (destruct fuel as [|f]; [simpl in Hf; lia|]).
  - reflexivity.
  - destruct b; reflexivity.
  - cbn [print]. rewrite parse_value_num by apply num_head_print_Z.
    rewrite parse_Z_print by assumption. reflexivity.
  - cbn [print]. unfold print_string. cbn [String.append].
    rewrite parse_value_str, append_assoc. cbn [String.append].
    rewrite parse_chars_escape. reflexivity.
  - destruct l as [|x l]; [reflexivity|].
    rewrite print_arr. cbn [String.append]. rewrite append_assoc.
    cbn [String.append].
    inversion IH as [|? ? Hx Hl]; subst.
    assert (E := parse_elements_print l Hl x f rest Hx).
    destruct (print_head x (join (map print l) ++ String "]" rest))
      as (c & r & Ec & Hc).
    assert (Ej : exists c r, join (map print (x :: l)) ++ String "]" rest
                             = String c r /\ value_head c = true).
    { destruct l as [|y l'].
      - cbn [map join]. apply print_head.
      - change (join (map print (x :: y :: l')))
          with (print x ++ String "," (join (map print (y :: l')))).
        rewrite append_assoc. apply print_head. }
    destruct Ej as (c' & r' & Ec' & Hc').
    rewrite Ec' in E |- *. rewrite parse_value_arr by assumption.
    rewrite E; [reflexivity|]. simpl in Hf |- *. lia.
  - destruct m as [|[k x] m]; [reflexivity|].
    rewrite print_obj. cbn [String.append]. rewrite append_assoc.
    cbn [String.append].
    inversion IH as [|? ? Hx Hm]; subst. cbn [snd] in Hx.
    assert (E := parse_members_print m Hm k x f rest Hx).
    assert (Ej : exists r, join (map print_member ((k, x) :: m)) ++ String "}" rest
                           = String dquote r).
    { destruct m as [|[k' y] m'].
      - cbn [map join]. rewrite print_member_shape. eexists; reflexivity.
      - change (join (map print_member ((k, x) :: (k', y) :: m')))
          with (print_member (k, x)
                  ++ String "," (join (map print_member ((k', y) :: m')))).
        rewrite append_assoc, print_member_shape. eexists; reflexivity. }
    destruct Ej as (r' & Er').
    rewrite Er' in E |- *. rewrite parse_value_obj.
    rewrite E; [reflexivity|]. simpl in Hf |- *. lia.
Qed.

Lemma append_nil_r (s : string) : s ++ "" = s.
Proof. induction s as [|c s IH]; simpl; [reflexivity | now rewrite IH]. Qed.

Lemma print_nonempty (j : json) : 1 <= String.length (print j).
Proof.
  destruct (print_head j "") as (c & r & E & _).
  rewrite append_nil_r in E. rewrite E. simpl. lia.
Qed.

Lemma cost_join (l : list json) :
  Forall (fun x => cost x <= String.length (print x)) l ->
  list_sum (map (fun x => S (cost x)) l)
  <= S (String.length (join (map print l))).
Proof.
  induction 1 as [|x l Hx Hl IH]; [simpl; lia|].
  destruct l as [|y l'].
  - simpl in *. lia.
  - change (join (map print (x :: y :: l')))
      with (print x ++ String "," (join (map print (y :: l')))).
    rewrite length_append. cbn [String.length].
    change (list_sum (map (fun x => S (cost x)) (x :: y :: l')))
      with (S (cost x) + list_sum (map (fun x => S (cost x)) (y :: l'))).
    lia.
Qed.

Lemma cost_join_members (m : list (string * json)) :
  Forall (fun kv => cost (snd kv) <= String.length (print (snd kv))) m ->
  list_sum (map (fun kv => S (cost (snd kv))) m)
  <= S (String.length (join (map print_member m))).
Proof.
  assert (Hm : forall kv, cost (snd kv) <= String.length (print (snd kv)) ->
                          S (cost (snd kv)) <= String.length (print_member kv)).
  { intros kv H. unfold print_member, print_string.
    cbn [String.append String.length]. rewrite !length_append.
    cbn [String.length]. lia. }
  induction 1 as [|x l Hx Hl IH]; [simpl; lia|].
  apply Hm in Hx.
  destruct l as [|y l'].
  - simpl in *. lia.
  - change (join (map print_member (x :: y :: l')))
      with (print_member x ++ String "," (join (map print_member (y :: l')))).
    rewrite length_append. cbn [String.length].
    change (list_sum (map (fun kv => S (cost (snd kv))) (x :: y :: l')))
      with (S (cost (snd x))
            + list_sum (map (fun kv => S (cost (snd kv))) (y :: l'))).
    lia.
Qed.

Lemma cost_le_length (j : json) : cost j <= String.length (print j).
Proof.
  induction j as [|b|z|s|l IH|m IH] using json_ind'.
  - simpl; lia.
  - destruct b; simpl; lia.
  - apply (print_nonempty (JNum z)).
  - unfold print, print_string. simpl. lia.
  - rewrite print_arr. cbn [cost String.length]. rewrite length_append.
    pose proof (cost_join l IH). simpl. lia.
  - rewrite print_obj. cbn [cost String.length]. rewrite length_append.
    pose proof (cost_join_members m IH). simpl. lia.
Qed.

(** What [json.Marshal] writes, [json.Unmarshal] reads back. *)
Lemma parse_print (j : json) : parse (print j) = Some j.
Proof.
  unfold parse.
  pose proof (parse_value_print j (S (String.length (print j))) "") as H.
  rewrite append_nil_r in H. rewrite H; [reflexivity | | reflexivity].
  pose proof (cost_le_length j). lia.
Qed.

Lemma parse_empty : parse "" = None.
Proof. reflexivity. Qed.

End JsonFacts.


(** ** Facts about the [encoding/json] model *)

Module GoJsonFacts.
Import Json JsonFacts Native.

Lemma map_insert_last {V} (k : string) (v : V) (acc : list (string * V)) :
  Forall (fun kv => String.ltb (fst kv) k = true) acc ->
  map_insert k v acc = (acc ++ [(k, v)])%list.
Proof.
  induction 1 as [|[k' v'] acc Hk _ IH]; [reflexivity|].
  simpl in Hk |- *. unfold String.ltb in Hk.
  rewrite String.compare_antisym.
  destruct (String.compare k' k); try discriminate.
  simpl. now rewrite IH.
Qed.

Lemma sorted_keys_before {V} (acc : list (string * V)) k v l :
  sorted_keys (acc ++ (k, v) :: l)%list = true ->
  Forall (fun kv => String.ltb (fst kv) k = true) acc.
Proof.
  induction acc as [|[k' v'] acc IH]; intros H; [constructor|].
  simpl in H. apply andb_true_iff in H as [H1 H2].
  constructor; [|now apply IH].
  rewrite forallb_app in H1. apply andb_true_iff in H1 as [_ H1].
  simpl in H1. now apply andb_true_iff in H1 as [H1 _].
Qed.

Lemma fold_insert_sorted {V} (l acc : list (string * V)) :
  sorted_keys (acc ++ l)%list = true ->
  fold_left (fun m kv => map_insert (fst kv) (snd kv) m) l acc = (acc ++ l)%list.
Proof.
  revert acc. induction l as [|[k v] l IH]; intros acc H.
  - now rewrite app_nil_r.
  - simpl. rewrite (map_insert_last k v acc) by (eapply sorted_keys_before; eauto).
    rewrite IH; rewrite <- app_assoc; [reflexivity | exact H].
Qed.

(** Storing the members of a key-sorted object yields that very map. *)
Lemma map_of_list_sorted {V} (m : list (string * V)) :
  sorted_keys m = true -> map_of_list m = m.
Proof. intros H. apply (fold_insert_sorted m []). exact H. Qed.

Lemma mapM_inverse {A B} (f : A -> result B) (g : B -> result A) (l : list A) :
  Forall (fun x => exists y, f x = Ok y /\ g y = Ok x) l ->
  exists l', mapM f l = Ok l' /\ mapM g l' = Ok l.
Proof.
  induction 1 as [|x l (y & Hf & Hg) _ (l' & Hl & Hl')].
  - exists []. split; reflexivity.
  - exists (y :: l'). simpl. rewrite Hf, Hl. simpl. rewrite Hg, Hl'.
    split; reflexivity.
Qed.

Lemma float64_of_Z_exact (z : Z) :
  (Z.abs z <=? 2 ^ 53)%Z = true -> float64_of_Z z = Some z.
Proof. intros H. unfold float64_of_Z. now rewrite H. Qed.

(** A native value is encoded without error and decoded to itself. *)
Lemma of_json_to_json (v : value) :
  json_native v = true ->
  exists j, to_json v = Ok j /\ of_json j = Ok v.
Proof.
  induction v as [|b|z|z|s| |l IH| |m IH|] using value_ind';
    intros H; try discriminate;
    try (eexists; split; reflexivity).
  - exists (JNum z). split; [reflexivity|].
    simpl in H |- *. now rewrite float64_of_Z_exact.
  - simpl in H.
    destruct (mapM_inverse to_json of_json l) as (js & E1 & E2).
    { rewrite Forall_forall in IH |- *. intros x Hx. apply IH; [assumption|].
      rewrite forallb_forall in H. now apply H. }
    exists (JArr js). simpl. rewrite E1. simpl. rewrite E2. split; reflexivity.
  - simpl in H. apply andb_true_iff in H as [Hs Hn].
    destruct (mapM_inverse
                (fun kv => j <- to_json (snd kv) ;; Ok (fst kv, j))
                (fun kv => v <- of_json (snd kv) ;; Ok (fst kv, v)) m)
      as (ms & E1 & E2).
    { rewrite Forall_forall in IH |- *. intros [k x] Hx.
      rewrite forallb_forall in Hn.
      destruct (IH (k, x) Hx (Hn (k, x) Hx)) as (j & Hj & Hj').
      exists (k, j). simpl in *. rewrite Hj. simpl. rewrite Hj'. split; reflexivity. }
    exists (JObj ms). simpl. rewrite E1. simpl. rewrite E2. simpl.
    rewrite map_of_list_sorted by assumption. split; reflexivity.
Qed.


(** [json.Unmarshal(json.Marshal(m))] at [map[string]interface{}]. *)
Lemma UnmarshalMap_MarshalMap (m : gomap) :
  native_map m = true ->
  exists b, MarshalMap m = Ok b /\ UnmarshalMap b = Ok m /\ nonempty b = true.
Proof.
  intros H. destruct m as [kvs|].
  - destruct (of_json_to_json (VMap (Some kvs)) H) as (j & Hj & Hj').
    exists (print j). unfold MarshalMap, Marshal, UnmarshalMap.
    rewrite Hj, parse_print. simpl.
    assert (Hn : nonempty (print j) = true).
    { pose proof (print_nonempty j).
      destruct (print j); [simpl in *; lia | reflexivity]. }
    simpl in Hj. destruct (mapM _ kvs) as [ms|e]; [|discriminate].
    injection Hj as <-. simpl in Hj'.
    destruct (mapM _ ms) as [kvs'|e]; [|discriminate].
    simpl in *. injection Hj' as E. rewrite E. repeat split; assumption.
  - exists "null". repeat split; reflexivity.
Qed.

End GoJsonFacts.

(** ** The node codec *)

Module CodecFacts.
Import Json JsonFacts GoJson RetriesJson Native GoJsonFacts Codec Examples.

(** The defining equations of the two node converters, as the source
    writes them. *)

Lemma toProtoNode_Some (n : Node) :
  toProtoNode (Some n) =
  (with_ <- MarshalMap (With n) ;;
   doNodes <- range_append toProtoNode (Do n) None ;;
   retries <- MarshalRetries (Retries' n) ;;
   onFailureNodes <- range_append toProtoNode (OnFailure n) None ;;
   Ok (Some (proto.mkNode (ID n) (Uses n) with_ (Needs n) doNodes
               retries onFailureNodes))).
Proof. destruct n; reflexivity. Qed.

Lemma fromProtoNode_Some (p : proto.Node) :
  fromProtoNode (Some p) =
  (with_ <- UnmarshalMap (proto.With p) ;;
   doNodes <-
     range_append (fun q => dn <- fromProtoNode q ;; Ok (Some dn))
       (proto.Do p) None ;;
   retries <-
     (if nonempty (proto.Retries p) && negb (proto.Retries p =? "null")%string
      then UnmarshalRetries (proto.Retries p)
      else Ok None) ;;
   onFailureNodes <-
     range_append (fun q => fn <- fromProtoNode q ;; Ok (Some fn))
       (proto.OnFailure p) None ;;
   Ok (mkNode (proto.Id p) (proto.Uses p) with_ (proto.Needs p) doNodes
         retries onFailureNodes)).
Proof. destruct p; reflexivity. Qed.

Lemma range_list_mapM {A B} (f : A -> result B) (l : list A) (acc : slice B) :
  range_list f l acc = (ys <- mapM f l ;; Ok (fold_left append_slice ys acc)).
Proof.
  revert acc. induction l as [|x l IH]; intros acc; simpl; [reflexivity|].
  destruct (f x) as [y|e]; simpl; [|reflexivity].
  rewrite IH. destruct (mapM f l); reflexivity.
Qed.

Lemma fold_append_Some {B} (ys a : list B) :
  fold_left append_slice ys (Some a) = Some (a ++ ys)%list.
Proof.
  revert a. induction ys as [|y ys IH]; intros a; simpl.
  - now rewrite app_nil_r.
  - rewrite IH, <- app_assoc. reflexivity.
Qed.

(** A loop that starts from the nil slice ends with nil exactly when it
    appended nothing. *)
Lemma fold_append_None {B} (ys : list B) :
  fold_left append_slice ys None = match ys with [] => None | _ => Some ys end.
Proof. destruct ys as [|y ys]; [reflexivity|]. simpl. now rewrite fold_append_Some. Qed.






(** C1 as stated fails: a nil child pointer is encoded as a nil envelope,
    which decodes to a pointer to the zero node. *)


(** What the nil child comes back as. *)
Lemma nil_child_decoded :
  (p <- toProtoNode (Some nil_child_node) ;; fromProtoNode p)
  = Ok (mkNode "n1" "log" None None (Some [Some zeroNode]) None None).
Proof. vm_compute. reflexivity. Qed.

(** The other conditions of [plain] are needed as well: an empty, non-nil
    [Do] comes back nil, and a Go [int] in [With] comes back a [float64]. *)
Lemma empty_do_decoded :
  (p <- toProtoNode (Some (mkNode "n" "u" None None (Some []) None None)) ;;
   fromProtoNode p)
  = Ok (mkNode "n" "u" None None None None None).
Proof. vm_compute. reflexivity. Qed.

Lemma int_param_decoded :
  (p <- toProtoNode
          (Some (mkNode "n" "u" (Some [("k", VInt 1)]) None None None None)) ;;
   fromProtoNode p)
  = Ok (mkNode "n" "u" (Some [("k", VFloat64 1)]) None None None None).
Proof. vm_compute. reflexivity. Qed.

(** A value [json.Marshal] rejects fails the encoding. *)
Lemma chan_param_rejected :
  toProtoNode (Some (mkNode "n" "u" (Some [("k", VChan)]) None None None None))
  = Err (UnsupportedTypeError "chan int").
Proof. vm_compute. reflexivity. Qed.

(** C9.  Both converters are total on nil: a nil node pointer is encoded as
    the nil envelope with no error, and the nil envelope is decoded as the
    zero node with no error. *)
Theorem nil_total :
  toProtoNode None = Ok None /\ fromProtoNode None = Ok zeroNode.
Proof. split; reflexivity. Qed.

(** What a successful conversion of a node used: each step succeeded, and
    the result holds what the step produced. *)

Lemma toProtoNode_is_Some (n : Node) (p : option proto.Node) :
  toProtoNode (Some n) = Ok p -> exists p', p = Some p'.
Proof.
  rewrite toProtoNode_Some. intros H.
  destruct (MarshalMap (With n)); [|discriminate]. cbn [bind] in H.
  destruct (range_append toProtoNode (Do n) None); [|discriminate].
  cbn [bind] in H.
  destruct (MarshalRetries (Retries' n)); [|discriminate]. cbn [bind] in H.
  destruct (range_append toProtoNode (OnFailure n) None); [|discriminate].
  cbn [bind] in H. injection H as <-. eexists; reflexivity.
Qed.

Lemma toProtoNode_fields (n : Node) (p : proto.Node) :
  toProtoNode (Some n) = Ok (Some p) ->
  proto.Id p = ID n /\ proto.Uses p = Uses n /\ proto.Needs p = Needs n
  /\ MarshalMap (With n) = Ok (proto.With p)
  /\ range_append toProtoNode (Do n) None = Ok (proto.Do p)
  /\ MarshalRetries (Retries' n) = Ok (proto.Retries p)
  /\ range_append toProtoNode (OnFailure n) None = Ok (proto.OnFailure p).
Proof.
  rewrite toProtoNode_Some. intros H.
  destruct (MarshalMap (With n)); [|discriminate]. cbn [bind] in H.
  destruct (range_append toProtoNode (Do n) None); [|discriminate].
  cbn [bind] in H.
  destruct (MarshalRetries (Retries' n)); [|discriminate]. cbn [bind] in H.
  destruct (range_append toProtoNode (OnFailure n) None); [|discriminate].
  cbn [bind] in H. injection H as <-. repeat split; reflexivity.
Qed.

Lemma fromProtoNode_fields (p : proto.Node) (n : Node) :
  fromProtoNode (Some p) = Ok n ->
  ID n = proto.Id p /\ Uses n = proto.Uses p /\ Needs n = proto.Needs p
  /\ UnmarshalMap (proto.With p) = Ok (With n)
  /\ range_append (fun q => dn <- fromProtoNode q ;; Ok (Some dn))
       (proto.Do p) None = Ok (Do n)
  /\ (if nonempty (proto.Retries p) && negb (proto.Retries p =? "null")%string
      then UnmarshalRetries (proto.Retries p) else Ok None) = Ok (Retries' n)
  /\ range_append (fun q => fn <- fromProtoNode q ;; Ok (Some fn))
       (proto.OnFailure p) None = Ok (OnFailure n).
Proof.
  rewrite fromProtoNode_Some. intros H.
  destruct (UnmarshalMap (proto.With p)); [|discriminate]. cbn [bind] in H.
  destruct (range_append _ (proto.Do p) None); [|discriminate].
  cbn [bind] in H.
  destruct (if nonempty (proto.Retries p) && negb (proto.Retries p =? "null")%string
            then UnmarshalRetries (proto.Retries p) else Ok None);
    [|discriminate].
  cbn [bind] in H.
  destruct (range_append _ (proto.OnFailure p) None); [|discriminate].
  cbn [bind] in H. injection H as <-. repeat split; reflexivity.
Qed.


(** C10.  When the [With] blob is well-formed JSON whose top-level value
    is neither an object nor [null], decoding the envelope fails with the
    type error of [json]: more than the malformed blobs is rejected. *)
Theorem with_must_be_object (p : proto.Node) (j : json) :
  parse (proto.With p) = Some j ->
  j <> JNull -> (forall m, j <> JObj m) ->
  fromProtoNode (Some p)
  = Err (UnmarshalTypeError (kind j) "map[string]interface {}" "").
Proof.
  intros Hp Hnull Hobj. rewrite fromProtoNode_Some.
  unfold UnmarshalMap. rewrite Hp.
  destruct j as [|b|z|str|l|m]; try reflexivity.
  - contradiction.
  - exfalso. now apply (Hobj m).
Qed.


Lemma with_must_be_object_witness :
  parse (proto.With array_with_envelope) = Some (JArr [JNum 1; JNum 2])
  /\ fromProtoNode (Some array_with_envelope)
     = Err (UnmarshalTypeError "array" "map[string]interface {}" "").
Proof.
  split; [vm_compute; reflexivity|].
  apply (with_must_be_object array_with_envelope (JArr [JNum 1; JNum 2]));
    [vm_compute; reflexivity | discriminate | discriminate].
Defined.

(** ** The context codec *)




(** C3 as stated fails: a [CurrentItem] that is not a string-keyed map (here
    a string) is encoded, and the decoder, which reads the blob into a
    map, rejects it. *)


Lemma string_item_decode_error :
  (p <- toProtoExecutionContext string_item_ctx ;; fromProtoExecutionContext p)
  = Err (UnmarshalTypeError "string" "map[string]interface {}" "").
Proof. vm_compute. reflexivity. Qed.

(** The order in which a blob lists the keys of a map does not matter. *)
Lemma key_order_irrelevant :
  UnmarshalMap (print (JObj [("b", JNum 1); ("a", JStr "x")]))
  = UnmarshalMap (print (JObj [("a", JStr "x"); ("b", JNum 1)]))
  /\ UnmarshalMap (print (JObj [("b", JNum 1); ("a", JStr "x")]))
     = Ok (Some [("a", VString "x"); ("b", VFloat64 1)]).
Proof. split; vm_compute; reflexivity. Qed.

(** The empty context comes back with a nil map, not the nil interface, in
    [CurrentItem]. *)
Lemma zero_ctx_decoded :
  (p <- toProtoExecutionContext zeroExecutionContext ;;
   fromProtoExecutionContext p)
  = Ok (mkExecutionContext None None None (VMap None) None).
Proof. vm_compute. reflexivity. Qed.

(** A decoding error of a context is the error of [json.Unmarshal] on one
    of its non-empty blobs. *)
Lemma fromProtoExecutionContext_Err (pCtx : proto.ExecutionContext) (e : error) :
  fromProtoExecutionContext pCtx = Err e ->
  exists b,
    In b [proto.TriggerData pCtx; proto.NodeOutputs pCtx;
          proto.CurrentItem pCtx; proto.FailureData pCtx]
    /\ nonempty b = true /\ UnmarshalMap b = Err e.
Proof.
  destruct pCtx as [b1 b2 se b3 b4]. unfold fromProtoExecutionContext.
  cbn [proto.TriggerData proto.NodeOutputs proto.CurrentItem
       proto.FailureData proto.Secrets].
  intros H.
  destruct (nonempty b1) eqn:N1;
    [destruct (UnmarshalMap b1) eqn:E1;
     [|injection H as <-; exists b1; simpl; auto]|];
    (destruct (nonempty b2) eqn:N2;
     [destruct (UnmarshalMap b2) eqn:E2;
      [|injection H as <-; exists b2; simpl; auto]|]);
    (destruct (nonempty b3) eqn:N3;
     [destruct (UnmarshalMap b3) eqn:E3;
      [|injection H as <-; exists b3; simpl; auto]|]);
    (destruct (nonempty b4) eqn:N4;
     [destruct (UnmarshalMap b4) eqn:E4;
      [|injection H as <-; exists b4; simpl; auto 6]|]);
    discriminate.
Qed.

(** C6.  An empty context blob is never handed to [json.Unmarshal]: the
    field it belongs to decodes to the nil map, a decoding error of a
    context always comes from a non-empty blob, a context envelope with four
    empty blobs decodes without error, and the empty result blob decodes to
    the nil value. *)
Theorem empty_blobs_decode (pCtx : proto.ExecutionContext) :
  (forall ctx, fromProtoExecutionContext pCtx = Ok ctx ->
     (proto.TriggerData pCtx = "" -> TriggerData ctx = None)
     /\ (proto.NodeOutputs pCtx = "" -> NodeOutputs ctx = None)
     /\ (proto.CurrentItem pCtx = "" -> CurrentItem ctx = VMap None)
     /\ (proto.FailureData pCtx = "" -> FailureData ctx = None))
  /\ (forall e, fromProtoExecutionContext pCtx = Err e ->
        exists b,
          In b [proto.TriggerData pCtx; proto.NodeOutputs pCtx;
                proto.CurrentItem pCtx; proto.FailureData pCtx]
          /\ nonempty b = true /\ UnmarshalMap b = Err e)
  /\ (proto.TriggerData pCtx = "" -> proto.NodeOutputs pCtx = "" ->
      proto.CurrentItem pCtx = "" -> proto.FailureData pCtx = "" ->
      fromProtoExecutionContext pCtx
      = Ok (mkExecutionContext None None (proto.Secrets pCtx) (VMap None) None))
  /\ fromProtoValue "" = Ok VNil.
Proof.
  destruct pCtx as [b1 b2 se b3 b4]. unfold fromProtoExecutionContext.
  cbn [proto.TriggerData proto.NodeOutputs proto.CurrentItem
       proto.FailureData proto.Secrets].
  split; [|split; [|split; [|reflexivity]]].
  - intros ctx H.
    destruct (if nonempty b1 then UnmarshalMap b1 else Ok None) as [m1|] eqn:E1;
      [|discriminate].
    destruct (if nonempty b2 then UnmarshalMap b2 else Ok None) as [m2|] eqn:E2;
      [|discriminate].
    destruct (if nonempty b3 then UnmarshalMap b3 else Ok None) as [m3|] eqn:E3;
      [|discriminate].
    destruct (if nonempty b4 then UnmarshalMap b4 else Ok None) as [m4|] eqn:E4;
      [|discriminate].
    cbn [bind] in H. injection H as <-.
    cbn [TriggerData NodeOutputs CurrentItem FailureData].
    repeat split; intros ->; simpl in *; congruence.
  - intros e H.
    apply (fromProtoExecutionContext_Err (proto.mkExecutionContext b1 b2 se b3 b4)).
    exact H.
  - intros -> -> -> ->. reflexivity.
Qed.

(** The [With] blob of a node is not among them: it is decoded without a
    length test, and [json.Unmarshal] rejects the empty document. *)
Lemma empty_with_rejected :
  fromProtoNode (Some (proto.mkNode "n1" "log" "" None None "" None))
  = Err (SyntaxError "unexpected end of JSON input").
Proof. vm_compute. reflexivity. Qed.

Lemma empty_blobs_decode_witness :
  fromProtoExecutionContext empty_ctx_envelope
  = Ok (mkExecutionContext None None (Some [("token", "s3cr3t")]) (VMap None) None).
Proof.
  apply (proj1 (proj2 (proj2 (empty_blobs_decode empty_ctx_envelope))));
    reflexivity.
Defined.

(** ** Failures *)

Lemma mapM_Err {A B} (f : A -> result B) (l : list A) (e : error) :
  mapM f l = Err e -> exists x, In x l /\ f x = Err e.
Proof.
  induction l as [|x l IH]; simpl; [discriminate|].
  destruct (f x) as [y|e'] eqn:E; simpl.
  - destruct (mapM f l); simpl; [discriminate|].
    intros H. destruct (IH H) as (x' & Hin & Hx'). eauto.
  - intros [= <-]. eauto.
Qed.

Lemma range_list_Err {A B} (f : A -> result B) (l : list A) acc (e : error) :
  range_list f l acc = Err e -> exists x, In x l /\ f x = Err e.
Proof.
  rewrite range_list_mapM. destruct (mapM f l) eqn:E; simpl; [discriminate|].
  intros [= <-]. now apply mapM_Err.
Qed.

Lemma to_json_Err (v : value) (e : error) :
  to_json v = Err e -> is_json_error e = true.
Proof.
  revert e.
  induction v as [|b|z|z|s| |l IH| |m IH|] using value_ind'; intros e;
    simpl; try discriminate.
  - destruct (mapM to_json l) eqn:E; simpl; [discriminate|]. intros [= <-].
    apply mapM_Err in E as (x & Hin & Hx).
    rewrite Forall_forall in IH. eapply IH; eauto.
  - destruct (mapM _ m) eqn:E; simpl; [discriminate|]. intros [= <-].
    apply mapM_Err in E as (x & Hin & Hx).
    rewrite Forall_forall in IH. apply (IH x Hin).
    destruct (to_json (snd x)); [discriminate|].
    simpl in Hx. now injection Hx as ->.
  - intros [= <-]. reflexivity.
Qed.


Lemma Marshal_Err (v : value) (e : error) :
  Marshal v = Err e -> is_json_error e = true.
Proof.
  unfold Marshal. destruct (to_json v) eqn:E; simpl; [discriminate|].
  intros [= <-]. now apply to_json_Err in E.
Qed.





Lemma toProtoNode_Err (n : option Node) (e : error) :
  toProtoNode n = Err e -> is_json_error e = true.
Proof.
  destruct n as [n|]; [|discriminate]. revert e.
  induction n as [id uses w needs do r onf IHdo IHonf] using Node_ind'.
  assert (K : forall s, children_all
                (fun n => forall e, toProtoNode (Some n) = Err e ->
                                    is_json_error e = true) s ->
              forall e, range_append toProtoNode s None = Err e ->
                        is_json_error e = true).
  { intros [l|] IH e; simpl; [|discriminate]. intros H.
    apply range_list_Err in H as (x & Hin & Hx).
    cbn [children_all] in IH.
    rewrite Forall_forall in IH. specialize (IH x Hin).
    destruct x; [now apply IH | discriminate]. }
  intros e. rewrite toProtoNode_Some.
  cbn [With Retries' Do OnFailure ID Uses Needs].
  destruct (MarshalMap w) eqn:Ew; cbn [bind];
    [|intros [= <-]; now apply Marshal_Err in Ew].
  destruct (range_append toProtoNode do None) eqn:Edo; cbn [bind];
    [|intros [= <-]; now apply K in Edo].
  destruct (MarshalRetries r) eqn:Er; cbn [bind];
    [|destruct r; discriminate].
  destruct (range_append toProtoNode onf None) eqn:Eonf; cbn [bind];
    [discriminate | intros [= <-]; now apply K in Eonf].
Qed.





(** ** The adapters *)

(** C5.  For a request the caller-side adapter encodes: when the
    implementation fails on the decoded request, the callee-side adapter
    returns that error as the handler's result and the caller-side adapter
    returns it as a status carrying its text; when decoding the request
    fails, the callee-side adapter returns the wrapped decoding error and
    the caller-side adapter returns a status carrying that text.  Neither is
    a [json] error on the caller's side. *)
Theorem execute_failure_reaches_caller
  (impl : NodeExecutor) (node : Node) (ctx : ExecutionContext)
  (req : proto.ExecuteRequest) (e : error) :
  toProtoExecuteRequest node ctx = Ok req ->
  (forall node' ctx',
      fromProtoExecuteRequest req = Ok (node', ctx') ->
      Execute impl node' ctx' = Err e ->
      NodeExecutorGRPCServer.Execute (NodeExecutorGRPCServer.mk impl) req = Err e
      /\ NodeExecutorGRPC.Execute (dialled impl) node ctx
         = Err (grpc.to_status e))
  /\ (fromProtoExecuteRequest req = Err e ->
      NodeExecutorGRPCServer.Execute (NodeExecutorGRPCServer.mk impl) req
      = Err (WrapError "failed to convert request from proto" e)
      /\ NodeExecutorGRPC.Execute (dialled impl) node ctx
         = Err (StatusError "Unknown"
                  ("failed to convert request from proto: " ++ Error e)))
  /\ is_json_error (grpc.to_status e) = false
  /\ ((forall c d, e <> StatusError c d) ->
      grpc.to_status e = StatusError "Unknown" (Error e)).
Proof.
  intros Hreq. repeat apply conj.
  - intros node' ctx' Hdec Himpl.
    assert (S : NodeExecutorGRPCServer.Execute (NodeExecutorGRPCServer.mk impl) req
                = Err e).
    { unfold NodeExecutorGRPCServer.Execute. rewrite Hdec.
      cbn [NodeExecutorGRPCServer.Impl]. rewrite Himpl. reflexivity. }
    split; [exact S|].
    unfold NodeExecutorGRPC.Execute. rewrite Hreq.
    cbn [dialled served NodeExecutorGRPC.client NodeExecutorPlugin.GRPCServer
         fst proto_grpc.RegisterNodeExecutorServer grpc.services grpc.peer
         proto_grpc.NewNodeExecutorClient proto.ClientExecute
         NodeExecutorPlugin.Impl NodeExecutorGRPCServer.as_NodeExecutorServer
         proto.ServerExecute].
    unfold grpc.invoke. rewrite S. reflexivity.
  - intros Hdec.
    assert (S : NodeExecutorGRPCServer.Execute (NodeExecutorGRPCServer.mk impl) req
                = Err (WrapError "failed to convert request from proto" e)).
    { unfold NodeExecutorGRPCServer.Execute. rewrite Hdec. reflexivity. }
    split; [exact S|].
    unfold NodeExecutorGRPC.Execute. rewrite Hreq.
    cbn [dialled served NodeExecutorGRPC.client NodeExecutorPlugin.GRPCServer
         fst proto_grpc.RegisterNodeExecutorServer grpc.services grpc.peer
         proto_grpc.NewNodeExecutorClient proto.ClientExecute
         NodeExecutorPlugin.Impl NodeExecutorGRPCServer.as_NodeExecutorServer
         proto.ServerExecute].
    unfold grpc.invoke. rewrite S. reflexivity.
  - destruct e; reflexivity.
  - intros H. destruct e; try reflexivity. exfalso. now apply (H code desc).
Qed.

Lemma execute_failure_reaches_caller_witness :
  toProtoExecuteRequest example_node example_ctx = Ok example_request
  /\ NodeExecutorGRPCServer.Execute (NodeExecutorGRPCServer.mk failing_impl)
       example_request = Err (ErrorString "boom")
  /\ NodeExecutorGRPC.Execute (dialled failing_impl) example_node example_ctx
     = Err (StatusError "Unknown" "boom").
Proof.
  assert (Hreq : toProtoExecuteRequest example_node example_ctx
                 = Ok example_request) by (vm_compute; reflexivity).
  split; [exact Hreq|].
  apply (proj1 (execute_failure_reaches_caller failing_impl example_node
                  example_ctx example_request (ErrorString "boom") Hreq)
           example_node example_ctx);
    [vm_compute; reflexivity | reflexivity].
Defined.

(** C7.  Both net/rpc entry points return no object and the error
    "NetRPC is not supported", whatever they are given; the two gRPC entry
    points return no error, the client one with a client object. *)
Theorem netrpc_unsupported (p : NodeExecutorPlugin.t) :
  (forall b, NodeExecutorPlugin.Server p b
             = (None, Some (ErrorString "NetRPC is not supported")))
  /\ (forall b c, NodeExecutorPlugin.Client p b c
                  = (None, Some (ErrorString "NetRPC is not supported")))
  /\ (forall broker s, snd (NodeExecutorPlugin.GRPCServer p broker s) = None)
  /\ (forall broker c, exists obj,
         NodeExecutorPlugin.GRPCClient p broker c = (Some obj, None)).
Proof.
  repeat apply conj; intros; try reflexivity. eexists; reflexivity.
Qed.

End CodecFacts.

(** ** Termination *)

Module CallsFacts.
Import GoJson RetriesJson Codec Calls Examples CodecFacts.

Lemma height_eq (n : Node) :
  height n = S (Nat.max (height_kids (Do n)) (height_kids (OnFailure n))).
Proof. destruct n; reflexivity. Qed.

Lemma pheight_eq (p : proto.Node) :
  pheight p
  = S (Nat.max (pheight_kids (proto.Do p)) (pheight_kids (proto.OnFailure p))).
Proof. destruct p; reflexivity. Qed.

Lemma represents_eq (h : heap) (t : Node) (a : nat) :
  represents h t a =
  match nth_error h a with
  | None => False
  | Some n =>
      cID n = ID t /\ cUses n = Uses t /\ cWith n = With t
      /\ cNeeds n = Needs t /\ cRetries n = Retries' t
      /\ all2_slice (represents_ptr h) (cDo n) (Do t)
      /\ all2_slice (represents_ptr h) (cOnFailure n) (OnFailure t)
  end.
Proof. destruct t; reflexivity. Qed.

Lemma toProtoNodeH_S (h : heap) (f : nat) (a : nat) :
  toProtoNodeH h (S f) (Some a) =
  match nth_error h a with
  | None => None
  | Some n =>
      match MarshalMap (cWith n) with
      | Err e => Some (Err e)
      | Ok with_ =>
          match range_appendP (toProtoNodeH h f) (cDo n) None with
          | None => None
          | Some (Err e) => Some (Err e)
          | Some (Ok doNodes) =>
              match MarshalRetries (cRetries n) with
              | Err e => Some (Err e)
              | Ok retries =>
                  match range_appendP (toProtoNodeH h f) (cOnFailure n) None with
                  | None => None
                  | Some (Err e) => Some (Err e)
                  | Some (Ok onFailureNodes) =>
                      Some (Ok (Some (proto.mkNode (cID n) (cUses n) with_
                                        (cNeeds n) doNodes retries
                                        onFailureNodes)))
                  end
              end
          end
      end
  end.
Proof. reflexivity. Qed.

Lemma range_listP_toProtoNode (h : heap) (f : nat) (tl : list (option Node)) :
  Forall (fun c => match c with None => True | Some t' => returns h t' end) tl ->
  forall pl acc,
    all2 (represents_ptr h) pl tl ->
    fold_right (fun c d => Nat.max (height_ptr c) d) 0 tl <= f ->
    range_listP (toProtoNodeH h f) pl acc
    = Some (range_list toProtoNode tl acc).
Proof.
  induction 1 as [|c tl Hc _ IH]; intros pl acc Hrep Hf;
    destruct pl as [|p pl]; try contradiction; [reflexivity|].
  destruct Hrep as [Hp Hrep]. cbn [fold_right] in Hf.
  assert (E : toProtoNodeH h f p = Some (toProtoNode c)).
  { destruct p as [a|], c as [t'|]; try contradiction.
    - apply Hc; [exact Hp | unfold height_ptr in Hf; lia].
    - destruct f; [unfold height_ptr in Hf; lia | reflexivity]. }
  cbn [range_listP range_list]. rewrite E.
  destruct (toProtoNode c); cbn [bind]; [|reflexivity].
  apply IH; [exact Hrep | lia].
Qed.

Lemma range_appendP_toProtoNode (h : heap) (f : nat)
  (ps : slice ptr) (ts : slice (option Node)) :
  children_all (returns h) ts ->
  all2_slice (represents_ptr h) ps ts ->
  height_kids ts <= f ->
  range_appendP (toProtoNodeH h f) ps None
  = Some (range_append toProtoNode ts None).
Proof.
  intros IH Hrep Hf. destruct ps as [pl|], ts as [tl|]; try contradiction;
    [|reflexivity].
  now apply range_listP_toProtoNode.
Qed.

Lemma toProtoNodeH_returns (h : heap) (t : Node) : returns h t.
Proof.
  induction t as [id uses w needs do r onf IHdo IHonf] using Node_ind'.
  intros a fuel Hrep Hf. rewrite represents_eq in Hrep.
  rewrite height_eq in Hf. cbn [ID Uses With Needs Do Retries' OnFailure] in *.
  destruct fuel as [|f]; [lia|]. rewrite toProtoNodeH_S.
  destruct (nth_error h a) as [n|]; [|contradiction].
  destruct Hrep as (-> & -> & -> & -> & -> & Hdo & Honf).
  rewrite toProtoNode_Some. cbn [ID Uses With Needs Do Retries' OnFailure].
  destruct (MarshalMap w); cbn [bind]; [|reflexivity].
  rewrite (range_appendP_toProtoNode h f (cDo n) do) by (assumption || lia).
  destruct (range_append toProtoNode do None); cbn [bind]; [|reflexivity].
  destruct (MarshalRetries r); cbn [bind]; [|reflexivity].
  rewrite (range_appendP_toProtoNode h f (cOnFailure n) onf)
    by (assumption || lia).
  destruct (range_append toProtoNode onf None); reflexivity.
Qed.

Lemma fromProtoNodeF_S (f : nat) (p : proto.Node) :
  fromProtoNodeF (S f) (Some p) =
  match UnmarshalMap (proto.With p) with
  | Err e => Some (Err e)
  | Ok with_ =>
      match range_appendP (child f) (proto.Do p) None with
      | None => None
      | Some (Err e) => Some (Err e)
      | Some (Ok doNodes) =>
          match (if nonempty (proto.Retries p)
                    && negb (proto.Retries p =? "null")%string
                 then UnmarshalRetries (proto.Retries p)
                 else Ok None) with
          | Err e => Some (Err e)
          | Ok retries =>
              match range_appendP (child f) (proto.OnFailure p) None with
              | None => None
              | Some (Err e) => Some (Err e)
              | Some (Ok onFailureNodes) =>
                  Some (Ok (mkNode (proto.Id p) (proto.Uses p) with_
                              (proto.Needs p) doNodes retries onFailureNodes))
              end
          end
      end
  end.
Proof. reflexivity. Qed.

Lemma range_appendP_fromProtoNode (f : nat) (s : slice (option proto.Node)) :
  pchildren_all preturns s ->
  pheight_kids s <= f ->
  range_appendP (child f) s None
  = Some (range_append (fun q => dn <- fromProtoNode q ;; Ok (Some dn)) s None).
Proof.
  intros IH Hf. destruct s as [l|]; [|reflexivity].
  cbn [pchildren_all pheight_kids range_appendP range_append] in *.
  generalize (@None (list (option Node))) as acc.
  induction IH as [|c l Hc _ IHl]; intros acc; [reflexivity|].
  cbn [fold_right] in Hf.
  assert (E : fromProtoNodeF f c = Some (fromProtoNode c)).
  { destruct c as [c'|].
    - apply Hc. unfold pheight_ptr in Hf. lia.
    - destruct f; [unfold pheight_ptr in Hf; lia | reflexivity]. }
  cbn [range_listP range_list]. unfold child at 1. rewrite E.
  destruct (fromProtoNode c); cbn [bind]; [|reflexivity].
  apply IHl. lia.
Qed.

Lemma fromProtoNodeF_returns (p : proto.Node) : preturns p.
Proof.
  induction p as [id uses w needs do r onf IHdo IHonf] using protoNode_ind'.
  intros fuel Hf. rewrite pheight_eq in Hf.
  cbn [proto.Do proto.OnFailure] in Hf.
  destruct fuel as [|f]; [lia|].
  rewrite fromProtoNodeF_S, fromProtoNode_Some.
  cbn [proto.With proto.Retries proto.Do proto.OnFailure proto.Id
       proto.Uses proto.Needs].
  destruct (UnmarshalMap w); cbn [bind]; [|reflexivity].
  rewrite (range_appendP_fromProtoNode f do) by (assumption || lia).
  destruct (range_append _ do None); cbn [bind]; [|reflexivity].
  destruct (if nonempty r && negb (r =? "null")%string
            then UnmarshalRetries r else Ok None); cbn [bind]; [|reflexivity].
  rewrite (range_appendP_fromProtoNode f onf) by (assumption || lia).
  destruct (range_append _ onf None); reflexivity.
Qed.

Lemma self_loop_never_returns (fuel : nat) :
  toProtoNodeH self_loop fuel (Some 0) = None.
Proof.
  induction fuel as [|f IH]; [reflexivity|].
  rewrite toProtoNodeH_S.
  cbn [self_loop nth_error cWith cDo range_appendP range_listP].
  change (MarshalMap None) with (@Ok bytes "null"). cbv iota beta.
  rewrite IH. reflexivity.
Qed.

(** C8.  When the cells reachable from a pointer form a finite tree, the
    calls of [toProtoNode] nest no deeper than the tree is high and the
    conversion returns, with the result of the structural definition; the
    same holds for [fromProtoNode] on an envelope tree.  On a cell that is
    its own child, no depth of calls is enough for [toProtoNode] to
    return. *)
Theorem codec_terminates_on_trees :
  (forall h t a fuel,
      represents h t a -> height t <= fuel ->
      toProtoNodeH h fuel (Some a) = Some (toProtoNode (Some t)))
  /\ (forall p fuel,
        pheight_ptr p <= fuel ->
        fromProtoNodeF fuel p = Some (fromProtoNode p))
  /\ (forall fuel, toProtoNodeH self_loop fuel (Some 0) = None).
Proof.
  repeat apply conj.
  - intros h t a fuel. apply toProtoNodeH_returns.
  - intros [p|] fuel Hf.
    + now apply fromProtoNodeF_returns.
    + destruct fuel; [simpl in Hf; lia | reflexivity].
  - apply self_loop_never_returns.
Qed.

Lemma codec_terminates_on_trees_witness :
  represents example_heap example_node 0
  /\ height example_node <= 2
  /\ toProtoNodeH example_heap 2 (Some 0) = Some (toProtoNode (Some example_node)).
Proof.
  assert (R : represents example_heap example_node 0)
    by (cbv; repeat split).
  assert (H : height example_node <= 2) by (vm_compute; lia).
  split; [exact R | split; [exact H|]].
  exact (proj1 codec_terminates_on_trees example_heap example_node 0 2 R H).
Defined.

End CallsFacts.

(** ** Further properties of the helpers and the adapters *)

Module MoreFacts.
Import Json JsonFacts GoJson RetriesJson Native GoJsonFacts Codec Examples.
Import Calls CodecFacts CallsFacts Shape.

(** *** The loops *)

Lemma mapM_Forall2 {A B} (f : A -> result B) (l : list A) (ys : list B) :
  mapM f l = Ok ys -> Forall2 (fun x y => f x = Ok y) l ys.
Proof.
  revert ys. induction l as [|x l IH]; intros ys; simpl.
  - intros [= <-]. constructor.
  - destruct (f x) as [y|] eqn:E; simpl; [|discriminate].
    destruct (mapM f l) as [ys'|]; simpl; [|discriminate].
    intros [= <-]. constructor; [exact E | now apply IH].
Qed.

Lemma elems_collected {A} (ys : list A) : elems (collected ys) = ys.
Proof. destruct ys; reflexivity. Qed.

Lemma range_append_collected {A B} (f : A -> result B) (s : slice A) :
  range_append f s None = (ys <- mapM f (elems s) ;; Ok (collected ys)).
Proof.
  destruct s as [l|]; [|reflexivity].
  cbn [range_append elems]. rewrite range_list_mapM.
  destruct (mapM f l); [|reflexivity]. cbn [bind].
  now rewrite fold_append_None.
Qed.

Lemma range_append_Ok {A B} (f : A -> result B) (s : slice A) (r : slice B) :
  range_append f s None = Ok r ->
  Forall2 (fun x y => f x = Ok y) (elems s) (elems r)
  /\ (r = None <-> elems s = []).
Proof.
  rewrite range_append_collected.
  destruct (mapM f (elems s)) as [ys|] eqn:E; [|discriminate].
  cbn [bind]. intros [= <-]. rewrite elems_collected.
  apply mapM_Forall2 in E. split; [exact E|].
  destruct E; simpl; split; intros; congruence.
Qed.

(** *** Results *)



(** What is not such a value comes back changed: a Go [int] that a
    [float64] holds exactly comes back as that [float64], and a nil slice or
    a nil map comes back as the nil interface. *)
Theorem value_normalised (z : Z) :
  (Z.abs z <= 2 ^ 53)%Z ->
  (b <- toProtoValue (VInt z) ;; fromProtoValue b) = Ok (VFloat64 z)
  /\ (b <- toProtoValue (VSlice None) ;; fromProtoValue b) = Ok VNil
  /\ (b <- toProtoValue (VMap None) ;; fromProtoValue b) = Ok VNil.
Proof.
  intros Hz. split; [|split; reflexivity].
  unfold toProtoValue, Marshal. cbn [to_json bind].
  unfold fromProtoValue.
  pose proof (print_nonempty (JNum z)) as Hn.
  destruct (print (JNum z)) as [|c r] eqn:E; [simpl in Hn; lia|].
  cbn [nonempty]. unfold Unmarshal. rewrite <- E, parse_print.
  cbn [of_json]. rewrite float64_of_Z_exact; [reflexivity|].
  now apply Z.leb_le.
Qed.

Lemma value_normalised_witness :
  (Z.abs 42 <= 2 ^ 53)%Z
  /\ (b <- toProtoValue (VInt 42) ;; fromProtoValue b) = Ok (VFloat64 42).
Proof.
  assert (H : (Z.abs 42 <= 2 ^ 53)%Z) by (vm_compute; discriminate).
  split; [exact H | exact (proj1 (value_normalised 42 H))].
Defined.

(** *** Capabilities *)


(** *** Requests *)



Lemma toProtoExecutionContext_Err (ctx : ExecutionContext) (e : error) :
  toProtoExecutionContext ctx = Err e -> is_json_error e = true.
Proof.
  unfold toProtoExecutionContext.
  destruct (MarshalMap (TriggerData ctx)) eqn:E1; cbn [bind];
    [|intros [= <-]; now apply Marshal_Err in E1].
  destruct (MarshalMap (NodeOutputs ctx)) eqn:E2; cbn [bind];
    [|intros [= <-]; now apply Marshal_Err in E2].
  destruct (Marshal (CurrentItem ctx)) eqn:E3; cbn [bind];
    [|intros [= <-]; now apply Marshal_Err in E3].
  destruct (MarshalMap (FailureData ctx)) eqn:E4; cbn [bind];
    [discriminate | intros [= <-]; now apply Marshal_Err in E4].
Qed.



(** A request that cannot be encoded never leaves the caller: whatever the
    client stub would answer, the caller-side [Execute] returns the [json]
    error, wrapped with the direction of the conversion. *)
Theorem unencodable_request_stays_local (node : Node) (ctx : ExecutionContext) :
  is_ok (toProtoExecuteRequest node ctx) = false ->
  exists e,
    is_json_error e = true
    /\ forall m, NodeExecutorGRPC.Execute m node ctx
                 = Err (WrapError "failed to convert request for gRPC" e).
Proof.
  intros H. destruct (toProtoExecuteRequest node ctx) as [req|e] eqn:E;
    [discriminate|].
  exists e. split.
  - unfold toProtoExecuteRequest in E.
    destruct (toProtoNode (Some node)) eqn:En; cbn [bind] in E.
    + destruct (toProtoExecutionContext ctx) eqn:Ec; cbn [bind] in E;
        [discriminate|]. injection E as <-.
      now apply toProtoExecutionContext_Err in Ec.
    + injection E as <-. now apply toProtoNode_Err in En.
  - intros m. unfold NodeExecutorGRPC.Execute. rewrite E. reflexivity.
Qed.

Lemma unencodable_request_stays_local_witness :
  is_ok (toProtoExecuteRequest chan_node zeroExecutionContext) = false
  /\ exists e,
       is_json_error e = true
       /\ forall m, NodeExecutorGRPC.Execute m chan_node zeroExecutionContext
                    = Err (WrapError "failed to convert request for gRPC" e).
Proof.
  split; [vm_compute; reflexivity|].
  apply (unencodable_request_stays_local chan_node zeroExecutionContext).
  vm_compute. reflexivity.
Defined.

(** *** The remote call as a whole *)




(** A request without a node is not rejected: the callee-side [Execute]
    runs the implementation on the zero node. *)
Theorem nodeless_request_is_dispatched
  (impl : NodeExecutor) (pCtx : proto.ExecutionContext) (ctx : ExecutionContext) :
  fromProtoExecutionContext pCtx = Ok ctx ->
  NodeExecutorGRPCServer.Execute (NodeExecutorGRPCServer.mk impl)
    (proto.mkExecuteRequest None pCtx)
  = match Execute impl zeroNode ctx with
    | Err e => Err e
    | Ok v =>
        match toProtoValue v with
        | Err e => Err (WrapError "failed to convert result to proto" e)
        | Ok b => Ok (proto.mkExecuteResponse b)
        end
    end.
Proof.
  intros H. unfold NodeExecutorGRPCServer.Execute, fromProtoExecuteRequest.
  cbn [proto.Node' proto.Context fromProtoNode bind]. rewrite H. reflexivity.
Qed.

Lemma nodeless_request_is_dispatched_witness :
  fromProtoExecutionContext empty_ctx_envelope
  = Ok (mkExecutionContext None None (Some [("token", "s3cr3t")]) (VMap None) None)
  /\ NodeExecutorGRPCServer.Execute (NodeExecutorGRPCServer.mk echo_impl)
       (proto.mkExecuteRequest None empty_ctx_envelope)
     = Ok (proto.mkExecuteResponse (print (JStr ""))).
Proof.
  assert (H : fromProtoExecutionContext empty_ctx_envelope
              = Ok (mkExecutionContext None None (Some [("token", "s3cr3t")])
                      (VMap None) None)) by reflexivity.
  split; [exact H|].
  rewrite (nodeless_request_is_dispatched echo_impl empty_ctx_envelope _ H).
  reflexivity.
Defined.

(** *** The shape of what the node converters return *)

Lemma toProtoNode_nil_iff (c : option Node) (q : option proto.Node) :
  toProtoNode c = Ok q -> (c = None <-> q = None).
Proof.
  destruct c as [c'|].
  - intros H. destruct (toProtoNode_is_Some c' q H) as (q' & ->).
    split; discriminate.
  - intros [= <-]. split; reflexivity.
Qed.

(** [toProtoNode] copies the identifier, [Uses] and [Needs], and converts
    the children one for one: each child slice of the envelope has the
    converted children at the same positions, a nil envelope exactly where
    the child pointer is nil, and is nil exactly when the node has no
    child there (its slice nil or empty). *)
Theorem toProtoNode_shape (n : Node) (p : proto.Node) :
  toProtoNode (Some n) = Ok (Some p) ->
  proto.Id p = ID n /\ proto.Uses p = Uses n /\ proto.Needs p = Needs n
  /\ Forall2 (fun c q => toProtoNode c = Ok q /\ (c = None <-> q = None))
       (elems (Do n)) (elems (proto.Do p))
  /\ (proto.Do p = None <-> elems (Do n) = [])
  /\ Forall2 (fun c q => toProtoNode c = Ok q /\ (c = None <-> q = None))
       (elems (OnFailure n)) (elems (proto.OnFailure p))
  /\ (proto.OnFailure p = None <-> elems (OnFailure n) = []).
Proof.
  intros H.
  apply toProtoNode_fields in H as (Hid & Hu & Hn & _ & Hdo & _ & Honf).
  apply range_append_Ok in Hdo as [Hdo Hdo'].
  apply range_append_Ok in Honf as [Honf Honf'].
  repeat split; try assumption; try (now apply Hdo'); try (now apply Honf').
  - eapply Forall2_impl; [|exact Hdo]. intros c q Hc.
    split; [exact Hc | now apply toProtoNode_nil_iff].
  - eapply Forall2_impl; [|exact Honf]. intros c q Hc.
    split; [exact Hc | now apply toProtoNode_nil_iff].
Qed.

Lemma toProtoNode_shape_witness :
  toProtoNode (Some nil_child_node) = Ok (Some nil_child_envelope)
  /\ Forall2 (fun c q => toProtoNode c = Ok q /\ (c = None <-> q = None))
       (elems (Do nil_child_node)) (elems (proto.Do nil_child_envelope)).
Proof.
  assert (H : toProtoNode (Some nil_child_node) = Ok (Some nil_child_envelope))
    by reflexivity.
  split; [exact H|].
  exact (proj1 (proj2 (proj2 (proj2
           (toProtoNode_shape nil_child_node nil_child_envelope H))))).
Defined.

Lemma solid_eq (n : Node) :
  solid n = solid_kids (Do n) && solid_kids (OnFailure n).
Proof. destruct n; reflexivity. Qed.

Lemma decoded_kids_solid (s : slice (option proto.Node)) (r : slice (option Node)) :
  pchildren_all
    (fun p => forall n, fromProtoNode (Some p) = Ok n -> solid n = true) s ->
  range_append (fun q => dn <- fromProtoNode q ;; Ok (Some dn)) s None = Ok r ->
  solid_kids r = true /\ List.length (elems r) = List.length (elems s).
Proof.
  intros IH H. apply range_append_Ok in H as [HF Hnil].
  assert (IH' : Forall (fun c => match c with
                                 | None => True
                                 | Some c' => forall n, fromProtoNode (Some c') = Ok n ->
                                                        solid n = true
                                 end) (elems s)).
  { destruct s as [l|]; [exact IH | constructor]. }
  clear IH.
  assert (K : forallb (fun c => match c with None => false
                                            | Some c' => solid c' end) (elems r)
              = true /\ List.length (elems r) = List.length (elems s)).
  { clear Hnil. induction HF as [|x y ls l Hxy _ IHF]; [split; reflexivity|].
    inversion IH' as [|? ? Hx Hls]; subst.
    destruct (IHF Hls) as [K1 K2]. cbn [forallb List.length]. rewrite K1, K2.
    split; [|reflexivity]. rewrite andb_true_r.
    destruct (fromProtoNode x) as [dn|] eqn:E; [|discriminate].
    cbn [bind] in Hxy. injection Hxy as <-.
    destruct x as [c|]; [now apply Hx|].
    injection E as <-. reflexivity. }
  destruct K as [K1 K2]. split; [|exact K2].
  destruct r as [[|y l]|]; [|exact K1|reflexivity].
  exfalso. cbn [elems List.length] in K2.
  destruct (elems s) eqn:Es; [|discriminate].
  destruct Hnil as [_ Hnil]. specialize (Hnil eq_refl). discriminate.
Qed.

Lemma decoded_solid (p : proto.Node) (n : Node) :
  fromProtoNode (Some p) = Ok n -> solid n = true.
Proof.
  revert n.
  induction p as [id uses w needs do r onf IHdo IHonf] using protoNode_ind'.
  intros n H.
  apply fromProtoNode_fields in H as (_ & _ & _ & _ & Hdo & _ & Honf).
  cbn [proto.Do proto.OnFailure] in *.
  rewrite solid_eq.
  destruct (decoded_kids_solid do (Do n) IHdo Hdo) as [-> _].
  destruct (decoded_kids_solid onf (OnFailure n) IHonf Honf) as [-> _].
  reflexivity.
Qed.

(** A node [fromProtoNode] returns has no nil child pointer and no empty,
    non-nil child slice, at any depth, and as many children in [Do] and in
    [OnFailure] as the envelope has child envelopes, nil ones included. *)
Theorem decoded_nodes_are_solid (p : option proto.Node) (n : Node) :
  fromProtoNode p = Ok n ->
  solid n = true
  /\ (forall p', p = Some p' ->
        List.length (elems (Do n)) = List.length (elems (proto.Do p'))
        /\ List.length (elems (OnFailure n)) = List.length (elems (proto.OnFailure p'))).
Proof.
  intros H. split.
  - destruct p as [p'|]; [now apply (decoded_solid p')|].
    injection H as <-. reflexivity.
  - intros p' ->.
    assert (Hs : forall q : proto.Node,
               pchildren_all
                 (fun p => forall n, fromProtoNode (Some p) = Ok n ->
                                     solid n = true) (proto.Do q)
               /\ pchildren_all
                    (fun p => forall n, fromProtoNode (Some p) = Ok n ->
                                        solid n = true) (proto.OnFailure q)).
    { intros q. split.
      - destruct (proto.Do q) as [l|]; [|exact I]. cbn [pchildren_all].
        apply Forall_forall. intros [c|] _; [|exact I].
        intros m. apply decoded_solid.
      - destruct (proto.OnFailure q) as [l|]; [|exact I]. cbn [pchildren_all].
        apply Forall_forall. intros [c|] _; [|exact I].
        intros m. apply decoded_solid. }
    apply fromProtoNode_fields in H as (_ & _ & _ & _ & Hdo & _ & Honf).
    destruct (Hs p') as [S1 S2].
    destruct (decoded_kids_solid _ _ S1 Hdo) as [_ L1].
    destruct (decoded_kids_solid _ _ S2 Honf) as [_ L2].
    split; assumption.
Qed.

Lemma decoded_nodes_are_solid_witness :
  fromProtoNode (Some nil_child_envelope)
  = Ok (mkNode "n1" "log" None None (Some [Some zeroNode]) None None)
  /\ solid (mkNode "n1" "log" None None (Some [Some zeroNode]) None None) = true.
Proof.
  assert (H : fromProtoNode (Some nil_child_envelope)
              = Ok (mkNode "n1" "log" None None (Some [Some zeroNode]) None None))
    by reflexivity.
  split; [exact H|].
  exact (proj1 (decoded_nodes_are_solid (Some nil_child_envelope) _ H)).
Defined.

(** *** Height *)

Lemma height_kids_elems (s : slice (option Node)) :
  height_kids s = fold_right (fun c d => Nat.max (height_ptr c) d) 0 (elems s).
Proof. destruct s; reflexivity. Qed.

Lemma pheight_kids_elems (s : slice (option proto.Node)) :
  pheight_kids s
  = fold_right (fun c d => Nat.max (pheight_ptr c) d) 0 (elems s).
Proof. destruct s; reflexivity. Qed.

Lemma children_all_elems (P : Node -> Prop) (s : slice (option Node)) :
  children_all P s ->
  Forall (fun c => match c with None => True | Some c' => P c' end) (elems s).
Proof. destruct s; [trivial | constructor]. Qed.

Lemma pchildren_all_elems (P : proto.Node -> Prop) (s : slice (option proto.Node)) :
  pchildren_all P s ->
  Forall (fun c => match c with None => True | Some c' => P c' end) (elems s).
Proof. destruct s; [trivial | constructor]. Qed.

Lemma encoded_height (n : Node) (p : option proto.Node) :
  toProtoNode (Some n) = Ok p -> pheight_ptr p = height n.
Proof.
  revert p.
  induction n as [id uses w needs do r onf IHdo IHonf] using Node_ind'.
  assert (K : forall s q,
             children_all
               (fun n => forall p, toProtoNode (Some n) = Ok p ->
                                   pheight_ptr p = height n) s ->
             range_append toProtoNode s None = Ok q ->
             pheight_kids q = height_kids s).
  { intros s q IH H. apply children_all_elems in IH.
    apply range_append_Ok in H as [HF _].
    rewrite pheight_kids_elems, height_kids_elems.
    induction HF as [|x y ls l Hxy _ IHF]; [reflexivity|].
    inversion IH as [|? ? Hx Hls]; subst. cbn [fold_right].
    rewrite (IHF Hls). f_equal.
    destruct x as [c|]; [now apply Hx|]. injection Hxy as <-. reflexivity. }
  intros p H. destruct (toProtoNode_is_Some _ _ H) as (p' & ->).
  apply toProtoNode_fields in H as (_ & _ & _ & _ & Hdo & _ & Honf).
  cbn [Do OnFailure] in *. cbn [pheight_ptr].
  rewrite pheight_eq, height_eq. cbn [Do OnFailure].
  now rewrite (K do _ IHdo Hdo), (K onf _ IHonf Honf).
Qed.

Lemma decoded_height (p : proto.Node) (n : Node) :
  fromProtoNode (Some p) = Ok n -> height n = pheight p.
Proof.
  revert n.
  induction p as [id uses w needs do r onf IHdo IHonf] using protoNode_ind'.
  assert (K : forall s q,
             pchildren_all
               (fun p => forall n, fromProtoNode (Some p) = Ok n ->
                                   height n = pheight p) s ->
             range_append (fun q => dn <- fromProtoNode q ;; Ok (Some dn)) s None
             = Ok q ->
             height_kids q = pheight_kids s).
  { intros s q IH H. apply pchildren_all_elems in IH.
    apply range_append_Ok in H as [HF _].
    rewrite pheight_kids_elems, height_kids_elems.
    induction HF as [|x y ls l Hxy _ IHF]; [reflexivity|].
    inversion IH as [|? ? Hx Hls]; subst. cbn [fold_right].
    rewrite (IHF Hls). f_equal.
    destruct (fromProtoNode x) as [dn|] eqn:E; [|discriminate].
    cbn [bind] in Hxy. injection Hxy as <-. cbn [height_ptr].
    destruct x as [c|]; [now apply Hx|]. injection E as <-. reflexivity. }
  intros n H.
  apply fromProtoNode_fields in H as (_ & _ & _ & _ & Hdo & _ & Honf).
  cbn [proto.Do proto.OnFailure] in *.
  rewrite pheight_eq, height_eq. cbn [proto.Do proto.OnFailure].
  now rewrite (K do _ IHdo Hdo), (K onf _ IHonf Honf).
Qed.

(** Whatever the node, if it is encoded and the envelope is decoded, the
    envelope tree and the decoded tree are exactly as high as the node
    tree, a nil child counting as one level on each side. *)
Theorem height_preserved (n : Node) (p : option proto.Node) (n' : Node) :
  toProtoNode (Some n) = Ok p -> fromProtoNode p = Ok n' ->
  pheight_ptr p = height n /\ height n' = height n.
Proof.
  intros E D. pose proof (encoded_height n p E) as Hp. split; [exact Hp|].
  destruct p as [p'|].
  - rewrite (decoded_height p' n' D). exact Hp.
  - destruct (toProtoNode_is_Some _ _ E) as (q & Hq). discriminate.
Qed.

Lemma height_preserved_witness :
  toProtoNode (Some nil_child_node) = Ok (Some nil_child_envelope)
  /\ fromProtoNode (Some nil_child_envelope)
     = Ok (mkNode "n1" "log" None None (Some [Some zeroNode]) None None)
  /\ height (mkNode "n1" "log" None None (Some [Some zeroNode]) None None)
     = height nil_child_node.
Proof.
  assert (E : toProtoNode (Some nil_child_node) = Ok (Some nil_child_envelope))
    by reflexivity.
  assert (D : fromProtoNode (Some nil_child_envelope)
              = Ok (mkNode "n1" "log" None None (Some [Some zeroNode]) None None))
    by reflexivity.
  split; [exact E|]. split; [exact D|].
  exact (proj2 (height_preserved nil_child_node _ _ E D)).
Defined.

(** *** The retry policy of a decoded node *)

(** A decoded node has no retry policy exactly when the [Retries] blob of
    its envelope is empty or is the JSON document [null], with or without
    white space around it; any other blob that decodes gives a policy. *)
Theorem retries_absent_iff (p : proto.Node) (n : Node) :
  fromProtoNode (Some p) = Ok n ->
  (Retries' n = None
   <-> proto.Retries p = "" \/ parse (proto.Retries p) = Some JNull).
Proof.
  intros H. apply fromProtoNode_fields in H as (_ & _ & _ & _ & _ & Hr & _).
  destruct (proto.Retries p) as [|c b] eqn:Eb.
  - simpl in Hr. injection Hr as <-. split; [now left | reflexivity].
  - cbn [nonempty andb] in Hr.
    destruct (String.eqb_spec (String c b) "null") as [E|E].
    + simpl in Hr. injection Hr as <-. rewrite E.
      split; [intros _; right; reflexivity | reflexivity].
    + cbn [negb] in Hr. unfold UnmarshalRetries in Hr.
      destruct (parse (String c b)) as [j|]; [|discriminate].
      destruct j as [| | | | |m]; try discriminate.
      * injection Hr as <-. split; [intros _; now right | reflexivity].
      * destruct (fold_left set_field m (mkRetries 0 "", None)) as [r' [e|]];
          [discriminate|]. injection Hr as <-.
        split; [discriminate | intros [?|?]; discriminate].
Qed.

Lemma retries_absent_iff_witness :
  fromProtoNode (Some (proto.mkNode "n1" "log" "null" None None " null " None))
  = Ok (mkNode "n1" "log" None None None None None)
  /\ (Retries' (mkNode "n1" "log" None None None None None) = None
      <-> " null " = "" \/ parse " null " = Some JNull).
Proof.
  assert (H : fromProtoNode
                (Some (proto.mkNode "n1" "log" "null" None None " null " None))
              = Ok (mkNode "n1" "log" None None None None None))
    by (vm_compute; reflexivity).
  split; [exact H|].
  exact (retries_absent_iff
           (proto.mkNode "n1" "log" "null" None None " null " None) _ H).
Defined.

(** *** Contexts *)

(** However a context is encoded and decoded, when both succeed the
    secrets come back as they were, the decoded [CurrentItem] is always a
    map, and a nil [CurrentItem] comes back as the nil map. *)
Theorem context_through_the_wire
  (ctx : ExecutionContext) (p : proto.ExecutionContext) (ctx' : ExecutionContext) :
  toProtoExecutionContext ctx = Ok p ->
  fromProtoExecutionContext p = Ok ctx' ->
  proto.Secrets p = Secrets ctx /\ Secrets ctx' = Secrets ctx
  /\ (exists m, CurrentItem ctx' = VMap m)
  /\ (CurrentItem ctx = VNil -> CurrentItem ctx' = VMap None).
Proof.
  unfold toProtoExecutionContext, fromProtoExecutionContext. intros E D.
  destruct (MarshalMap (TriggerData ctx)) as [b1|]; [|discriminate].
  destruct (MarshalMap (NodeOutputs ctx)) as [b2|]; [|discriminate].
  cbn [bind] in E.
  destruct (Marshal (CurrentItem ctx)) as [b3|] eqn:E3; [|discriminate].
  destruct (MarshalMap (FailureData ctx)) as [b4|]; [|discriminate].
  cbn [bind] in E. injection E as <-.
  cbn [proto.TriggerData proto.NodeOutputs proto.CurrentItem
       proto.FailureData proto.Secrets] in *.
  destruct (if nonempty b1 then UnmarshalMap b1 else Ok None); [|discriminate].
  destruct (if nonempty b2 then UnmarshalMap b2 else Ok None); [|discriminate].
  cbn [bind] in D.
  destruct (if nonempty b3 then UnmarshalMap b3 else Ok None) as [m3|] eqn:D3;
    [|discriminate].
  destruct (if nonempty b4 then UnmarshalMap b4 else Ok None); [|discriminate].
  cbn [bind] in D. injection D as <-.
  cbn [Secrets CurrentItem]. repeat split.
  - eexists; reflexivity.
  - intros Hnil. rewrite Hnil in E3. injection E3 as <-.
    simpl in D3. now injection D3 as <-.
Qed.

Lemma context_through_the_wire_witness :
  toProtoExecutionContext zeroExecutionContext
  = Ok (proto.mkExecutionContext "null" "null" None "null" "null")
  /\ fromProtoExecutionContext
       (proto.mkExecutionContext "null" "null" None "null" "null")
     = Ok (mkExecutionContext None None None (VMap None) None)
  /\ (CurrentItem zeroExecutionContext = VNil ->
      CurrentItem (mkExecutionContext None None None (VMap None) None)
      = VMap None).
Proof.
  assert (E : toProtoExecutionContext zeroExecutionContext
              = Ok (proto.mkExecutionContext "null" "null" None "null" "null"))
    by reflexivity.
  assert (D : fromProtoExecutionContext
                (proto.mkExecutionContext "null" "null" None "null" "null")
              = Ok (mkExecutionContext None None None (VMap None) None))
    by reflexivity.
  split; [exact E|]. split; [exact D|].
  exact (proj2 (proj2 (proj2 (context_through_the_wire _ _ _ E D)))).
Defined.

Lemma not_a_map_kind (v : value) (j : json) :
  not_a_map v = true -> to_json v = Ok j ->
  kind j <> "object" /\ kind j <> "null"
  /\ UnmarshalMap (print j)
     = Err (UnmarshalTypeError (kind j) "map[string]interface {}" "").
Proof.
  intros Hv Hj. unfold UnmarshalMap. rewrite parse_print.
  destruct v as [|b|z|z|s|[l|]| |]; try discriminate; simpl in Hj.
  - injection Hj as <-. repeat split; discriminate.
  - injection Hj as <-. repeat split; discriminate.
  - injection Hj as <-. repeat split; discriminate.
  - injection Hj as <-. repeat split; discriminate.
  - destruct (mapM to_json l); [|discriminate]. injection Hj as <-.
    repeat split; discriminate.
Qed.

(** A context whose [CurrentItem] holds a bool, a number, a string or a
    non-nil slice is encoded, and decoding what was encoded fails with the
    type error of [json] (here with the two map fields before it holding
    values [json] decodes to themselves). *)
Theorem non_map_item_rejected
  (ctx : ExecutionContext) (p : proto.ExecutionContext) :
  not_a_map (CurrentItem ctx) = true ->
  native_map (TriggerData ctx) = true ->
  native_map (NodeOutputs ctx) = true ->
  toProtoExecutionContext ctx = Ok p ->
  exists k,
    k <> "object" /\ k <> "null"
    /\ fromProtoExecutionContext p
       = Err (UnmarshalTypeError k "map[string]interface {}" "").
Proof.
  intros Hv Htd Hno E.
  destruct (UnmarshalMap_MarshalMap _ Htd) as (b1 & E1 & D1 & N1).
  destruct (UnmarshalMap_MarshalMap _ Hno) as (b2 & E2 & D2 & N2).
  unfold toProtoExecutionContext in E. rewrite E1, E2 in E. cbn [bind] in E.
  unfold Marshal at 1 in E.
  destruct (to_json (CurrentItem ctx)) as [j|] eqn:Ej; [|discriminate].
  cbn [bind] in E.
  destruct (MarshalMap (FailureData ctx)) as [b4|]; [|discriminate].
  cbn [bind] in E. injection E as <-.
  destruct (not_a_map_kind _ j Hv Ej) as (K1 & K2 & K3).
  exists (kind j). split; [exact K1|]. split; [exact K2|].
  unfold fromProtoExecutionContext.
  cbn [proto.TriggerData proto.NodeOutputs proto.CurrentItem
       proto.FailureData proto.Secrets].
  rewrite N1, D1, N2, D2. cbn [bind].
  assert (N3 : nonempty (print j) = true).
  { pose proof (print_nonempty j).
    destruct (print j); [simpl in *; lia | reflexivity]. }
  rewrite N3, K3. reflexivity.
Qed.

Lemma non_map_item_rejected_witness :
  not_a_map (CurrentItem list_item_ctx) = true
  /\ exists p,
       toProtoExecutionContext list_item_ctx = Ok p
       /\ exists k,
            k <> "object" /\ k <> "null"
            /\ fromProtoExecutionContext p
               = Err (UnmarshalTypeError k "map[string]interface {}" "").
Proof.
  split; [reflexivity|]. eexists. split; [vm_compute; reflexivity|].
  apply (non_map_item_rejected list_item_ctx); vm_compute; reflexivity.
Defined.

(** *** When the node converters succeed *)

Lemma is_ok_mapM {A B} (f : A -> result B) (l : list A) :
  is_ok (mapM f l) = forallb (fun x => is_ok (f x)) l.
Proof.
  induction l as [|x l IH]; [reflexivity|]. simpl.
  destruct (f x); simpl; [|reflexivity].
  rewrite <- IH. destruct (mapM f l); reflexivity.
Qed.

Lemma is_ok_range_append {A B} (f : A -> result B) (s : slice A) :
  is_ok (range_append f s None) = forallb (fun x => is_ok (f x)) (elems s).
Proof.
  rewrite range_append_collected, <- is_ok_mapM.
  destruct (mapM f (elems s)); reflexivity.
Qed.

Lemma forallb_agree {A} (f g : A -> bool) (l : list A) :
  Forall (fun x => f x = g x) l -> forallb f l = forallb g l.
Proof. induction 1 as [|x l H _ IH]; simpl; [reflexivity | now rewrite H, IH]. Qed.

Lemma encodable_eq (n : Node) :
  encodable n
  = is_ok (MarshalMap (With n)) && encodable_kids (Do n)
    && encodable_kids (OnFailure n).
Proof. destruct n; reflexivity. Qed.

Lemma decodable_eq (p : proto.Node) :
  decodable p
  = is_ok (UnmarshalMap (proto.With p)) && decodable_kids (proto.Do p)
    && (if nonempty (proto.Retries p) && negb (proto.Retries p =? "null")%string
        then is_ok (UnmarshalRetries (proto.Retries p)) else true)
    && decodable_kids (proto.OnFailure p).
Proof. destruct p; reflexivity. Qed.

(** [toProtoNode] succeeds exactly when every [With] in the tree is a map
    [json.Marshal] accepts: the retry policy, the strings and the shape of
    the tree (nil children included) never make it fail. *)
Theorem toProtoNode_succeeds_iff (n : Node) :
  is_ok (toProtoNode (Some n)) = encodable n.
Proof.
  induction n as [id uses w needs do r onf IHdo IHonf] using Node_ind'.
  assert (K : forall s,
             children_all
               (fun n => is_ok (toProtoNode (Some n)) = encodable n) s ->
             is_ok (range_append toProtoNode s None) = encodable_kids s).
  { intros s IH. rewrite is_ok_range_append.
    destruct s as [l|]; [|reflexivity]. cbn [elems encodable_kids].
    apply forallb_agree. cbn [children_all] in IH.
    eapply Forall_impl; [|exact IH]. intros [c|] Hc; [exact Hc | reflexivity]. }
  rewrite toProtoNode_Some, encodable_eq.
  cbn [With Do Retries' OnFailure ID Uses Needs].
  rewrite <- (K do IHdo), <- (K onf IHonf).
  destruct (MarshalMap w); cbn [bind is_ok andb]; [|reflexivity].
  destruct (range_append toProtoNode do None); cbn [bind is_ok andb];
    [|reflexivity].
  assert (Hr : exists b, MarshalRetries r = Ok b)
    by (destruct r; eexists; reflexivity).
  destruct Hr as (b & ->). cbn [bind].
  destruct (range_append toProtoNode onf None); reflexivity.
Qed.

(** [fromProtoNode] succeeds exactly when, throughout the envelope tree,
    every [With] blob decodes to a map and every [Retries] blob that is
    neither empty nor the bytes [null] decodes to a policy. *)
Theorem fromProtoNode_succeeds_iff (p : proto.Node) :
  is_ok (fromProtoNode (Some p)) = decodable p.
Proof.
  induction p as [id uses w needs do r onf IHdo IHonf] using protoNode_ind'.
  assert (K : forall s,
             pchildren_all
               (fun p => is_ok (fromProtoNode (Some p)) = decodable p) s ->
             is_ok (range_append
                      (fun q => dn <- fromProtoNode q ;; Ok (Some dn)) s None)
             = decodable_kids s).
  { intros s IH. rewrite is_ok_range_append.
    destruct s as [l|]; [|reflexivity]. cbn [elems decodable_kids].
    apply forallb_agree. cbn [pchildren_all] in IH.
    eapply Forall_impl; [|exact IH]. intros [c|] Hc; [|reflexivity].
    rewrite <- Hc. destruct (fromProtoNode (Some c)); reflexivity. }
  rewrite fromProtoNode_Some, decodable_eq.
  cbn [proto.With proto.Retries proto.Do proto.OnFailure proto.Id
       proto.Uses proto.Needs].
  rewrite <- (K do IHdo), <- (K onf IHonf).
  destruct (UnmarshalMap w); cbn [bind is_ok andb]; [|reflexivity].
  destruct (range_append _ do None); cbn [bind is_ok andb]; [|reflexivity].
  destruct (nonempty r && negb (r =? "null")%string).
  - destruct (UnmarshalRetries r); cbn [bind is_ok andb]; [|reflexivity].
    destruct (range_append _ onf None); reflexivity.
  - cbn [bind]. destruct (range_append _ onf None); reflexivity.
Qed.

(** *** Results that are nil *)

(** [fromProtoValue] returns the nil value exactly for the empty blob and
    for a blob that is the JSON document [null]: on the caller's side a
    nil result and no result at all look the same. *)
Theorem result_nil_iff (b : bytes) :
  fromProtoValue b = Ok VNil <-> b = "" \/ parse b = Some JNull.
Proof.
  unfold fromProtoValue. destruct b as [|c b]; cbn [nonempty].
  - split; [now left | reflexivity].
  - unfold Unmarshal. split.
    + intros H. right. destruct (parse (String c b)) as [j|]; [|discriminate].
      destruct j as [| |z| |l|m]; simpl in H; try discriminate; try reflexivity.
      * destruct (float64_of_Z z); discriminate.
      * destruct (mapM of_json l); discriminate.
      * destruct (mapM _ m); discriminate.
    + intros [H|H]; [discriminate|]. rewrite H. reflexivity.
Qed.

End MoreFacts.
